(** * The RAG queue worker: a shallow embedding of its runtime

    The development follows [app/worker.py], [app/metrics.py] and
    [loadgen/push_jobs.py].  The Redis server, the JSON codec and the clock
    are outside the repository, and the pipeline of [app/rag.py] rests on
    an embedding model, a vector index and a language model that are
    outside it too: the server is modelled by the documented semantics of
    the five commands the code sends, and what the codec, the clock and
    [rag_engine.answer] return is a parameter of the model. *)

From Stdlib Require Import ZArith Ascii String List Lia.
From Stdlib Require Import SpecFloat.
From stdpp Require Import gmap strings list fin_maps.

#[local] Set Warnings "-register-all".
Local Open Scope string_scope.
Local Open Scope list_scope.
Local Open Scope Z_scope.

(** ** Values produced by [json.loads] *)

(** Python objects that [json.loads] can return.  A [dict] keeps its
    insertion order, so it is an association list; [dict.get] reads the
    first binding of a key. *)
Inductive json :=
| JNull
| JBool (b : bool)
| JInt (n : Z)
| JFloat (x : spec_float)
| JStr (s : string)
| JArr (items : list json)
| JObj (members : list (string * json)).

(** Truth value of an object, as used by [if not question]. *)
Definition truthy (v : json) : bool :=
  match v with
  | JNull => false
  | JBool b => b
  | JInt n => negb (n =? 0)
  | JFloat (S754_zero _) => false
  | JFloat _ => true
  | JStr s => negb (String.eqb s "")
  | JArr items => match items with [] => false | _ => true end
  | JObj members => match members with [] => false | _ => true end
  end.

Definition type_name (v : json) : string :=
  match v with
  | JNull => "NoneType"
  | JBool _ => "bool"
  | JInt _ => "int"
  | JFloat _ => "float"
  | JStr _ => "str"
  | JArr _ => "list"
  | JObj _ => "dict"
  end.

Fixpoint assoc_get (members : list (string * json)) (k : string) : option json :=
  match members with
  | [] => None
  | (k', v) :: rest => if String.eqb k' k then Some v else assoc_get rest k
  end.

(** [d.get(k, default)] on a dict. *)
Definition dict_get (members : list (string * json)) (k : string) (default : json) : json :=
  match assoc_get members k with
  | Some v => v
  | None => default
  end.

(** ** Exceptions *)

(** Only the class test of the two handlers of the loop matters:
    [redis.ConnectionError] against everything else under [Exception]. *)
Inductive exn_class :=
| ValueError | TypeError | KeyError | AttributeError
| RedisConnectionError | RedisResponseError | OtherException.

(** An exception with the text [str(e)] gives. *)
Record exn := Exn { exn_cls : exn_class; exn_msg : string }.

Definition is_connection_error (e : exn) : bool :=
  match exn_cls e with RedisConnectionError => true | _ => false end.

(** ** The Redis server *)

(** A key holds a list (the job queue) or a hash (a result record), with
    an optional time to live in seconds. *)
Inductive rvalue :=
| RList (items : list string)
| RHash (fields : gmap string string).

Record entry := Entry { value : rvalue; ttl : option Z }.

(** The head of [items] is the left end of the Redis list. *)
Inductive reply (A : Type) :=
| Done (a : A) (ks : gmap string entry)
| WrongType.
Arguments Done {A} a ks.
Arguments WrongType {A}.

(** LPUSH key v *)
Definition redis_lpush (key v : string) (ks : gmap string entry) : reply unit :=
  match ks !! key with
  | None => Done tt (<[key := Entry (RList [v]) None]> ks)
  | Some (Entry (RList items) t) => Done tt (<[key := Entry (RList (v :: items)) t]> ks)
  | Some (Entry (RHash _) _) => WrongType
  end.

(** LLEN key *)
Definition redis_llen (key : string) (ks : gmap string entry) : reply nat :=
  match ks !! key with
  | None => Done 0%nat ks
  | Some (Entry (RList items) _) => Done (length items) ks
  | Some (Entry (RHash _) _) => WrongType
  end.

(** RPOP key: takes the right end; a list that becomes empty is removed. *)
Definition redis_rpop (key : string) (ks : gmap string entry) : reply (option string) :=
  match ks !! key with
  | None => Done None ks
  | Some (Entry (RList items) t) =>
      match last items with
      | None => Done None ks
      | Some v =>
          match removelast items with
          | [] => Done (Some v) (delete key ks)
          | rest => Done (Some v) (<[key := Entry (RList rest) t]> ks)
          end
      end
  | Some (Entry (RHash _) _) => WrongType
  end.

(** HSET key f1 v1 f2 v2 ...: sets the named fields and leaves the other
    fields of an existing hash, and its time to live, as they are. *)
Definition redis_hset (key : string) (mapping : list (string * string))
    (ks : gmap string entry) : reply unit :=
  match ks !! key with
  | None => Done tt (<[key := Entry (RHash (list_to_map mapping)) None]> ks)
  | Some (Entry (RHash fields) t) =>
      Done tt (<[key := Entry (RHash (list_to_map mapping ∪ fields)) t]> ks)
  | Some (Entry (RList _) _) => WrongType
  end.

(** EXPIRE key seconds: a missing key is left missing; a timeout that is
    not positive removes the key at once. *)
Definition redis_expire (key : string) (seconds : Z) (ks : gmap string entry) : reply bool :=
  match ks !! key with
  | None => Done false ks
  | Some (Entry v _) =>
      if seconds <=? 0 then Done true (delete key ks)
      else Done true (<[key := Entry v (Some seconds)]> ks)
  end.

(** ** Configuration and environment *)

(** The module-level settings of [worker.py], read from the process
    environment when the module is loaded. *)
Record config := Config {
  QUEUE_NAME : string;
  RESULT_PREFIX : string;
  RESULT_TTL : Z;
  BRPOP_TIMEOUT : Z;
  WORKER_ID : string;
}.

(** The values used when no variable is set. *)
Definition default_config : config :=
  {| QUEUE_NAME := "rag:jobs";
     RESULT_PREFIX := "rag:result:";
     RESULT_TTL := 3600;
     BRPOP_TIMEOUT := 5;
     WORKER_ID := "worker-local" |}.

(** What [json.loads] does with a payload. *)
Inductive loads_result :=
| Loaded (v : json)
| JSONDecodeError (msg : string)
| LoadsRaised (e : exn).

(** What [rag_engine.answer] does: it returns a dict with the answer, a
    string, and the sources, a list of dicts that [json.dumps] accepts; or
    it raises; or the generation backend never replies. *)
Inductive pipeline_outcome :=
| Answered (answer : string) (sources : json)
| PipelineRaised (e : exn)
| PipelineHangs.

(** What the worker cannot decide by itself.  External calls (a Redis
    command, the pipeline, a sleep) are numbered in the order the process
    makes them; the number of the call is the index below.
    - [json_loads], [json_dumps]: the codec of the standard library;
      [LoadsRaised] is an exception other than [JSONDecodeError]
      (a [RecursionError] on deep nesting, for one).
    - [py_repr]: the text [str()] gives for numbers, lists and dicts.
    - [redis_fault t]: the exception call [t] raises when the transport or
      the server refuses the command; a refused command changes nothing.
    - [rag_answer t q]: what [rag_engine.answer(q)] does at call [t].
    - [utcnow_isoformat t]: [datetime.utcnow().isoformat()] read after
      [t] calls.
    - [signal_during t]: the number of the termination signal delivered
      while call [t] is running, if there is one. *)
Record environment := Environment {
  json_loads : string -> loads_result;
  json_dumps : json -> string;
  py_repr : json -> string;
  redis_fault : nat -> option exn;
  rag_answer : nat -> json -> pipeline_outcome;
  utcnow_isoformat : nat -> string;
  signal_during : nat -> option Z;
}.

(** ** Observable events and the state of a worker process *)

(** The commands the worker sends to the server. *)
Inductive command :=
| BRPOP (key : string) (timeout : Z)
| HSET (key : string) (mapping : list (string * string))
| EXPIRE (key : string) (seconds : Z).

(** The lines the worker prints, one constructor for each [print] of
    [worker.py], with the values it formats (the elapsed time apart). *)
Inductive log_line :=
| LogSignal (signum : Z)
| LogProcessing (job_id excerpt : string)
| LogResultStored (key : string)
| LogErrorStored (key : string)
| LogInvalidJSON (msg : string)
| LogJobFailed (job_id msg : string)
| LogJobCompleted (job_id : string)
| LogConnectionError (msg : string)
| LogUnexpected (msg : string)
| LogShutdownComplete.

(** What a worker does that can be seen from outside. *)
Inductive event :=
| Sent (c : command)
| Printed (l : log_line)
| PipelineCalled (question : json)
| Slept (seconds : Z)
| InflightInc
| InflightDec
| ProcessedInc (status : string)
| DurationObserved.

(** [keys] is the server, shared with every other client; the rest is
    local to the process.  [trace] lists what the process has done, oldest
    first.  A labelled metric maps the value of its label to a number. *)
Record world := World {
  keys : gmap string entry;
  tick : nat;
  _shutdown : bool;
  agent_inflight : gmap string Z;
  agent_jobs_processed : gmap string Z;
  agent_job_duration : nat;
  trace : list event;
}.

Definition with_keys (ks : gmap string entry) (w : world) : world :=
  World ks (tick w) (_shutdown w) (agent_inflight w) (agent_jobs_processed w)
        (agent_job_duration w) (trace w).
Definition with_tick (t : nat) (w : world) : world :=
  World (keys w) t (_shutdown w) (agent_inflight w) (agent_jobs_processed w)
        (agent_job_duration w) (trace w).
Definition with_shutdown (b : bool) (w : world) : world :=
  World (keys w) (tick w) b (agent_inflight w) (agent_jobs_processed w)
        (agent_job_duration w) (trace w).
Definition with_inflight (g : gmap string Z) (w : world) : world :=
  World (keys w) (tick w) (_shutdown w) g (agent_jobs_processed w)
        (agent_job_duration w) (trace w).
Definition with_processed (c : gmap string Z) (w : world) : world :=
  World (keys w) (tick w) (_shutdown w) (agent_inflight w) c
        (agent_job_duration w) (trace w).
Definition with_duration (n : nat) (w : world) : world :=
  World (keys w) (tick w) (_shutdown w) (agent_inflight w) (agent_jobs_processed w)
        n (trace w).
Definition emit (ev : event) (w : world) : world :=
  World (keys w) (tick w) (_shutdown w) (agent_inflight w) (agent_jobs_processed w)
        (agent_job_duration w) (trace w ++ [ev]).

(** The value a labelled metric shows for a label (0 until first used). *)
Definition metric_value (m : gmap string Z) (label : string) : Z :=
  default 0 (m !! label).

Definition inflight (w : world) : Z := metric_value (agent_inflight w) "default".
Definition processed (w : world) (status : string) : Z :=
  metric_value (agent_jobs_processed w) status.

(** ** Computations of the worker *)

(** A computation returns, raises, or never comes back. *)
Inductive outcome (A : Type) :=
| Ok (a : A)
| Raise (e : exn)
| Hang.
Arguments Ok {A} a.
Arguments Raise {A} e.
Arguments Hang {A}.

Definition M (A : Type) : Type := world -> outcome A * world.

#[global] Instance M_ret : MRet M := fun A a w => (Ok a, w).
#[global] Instance M_bind : MBind M := fun A B f m w =>
  match m w with
  | (Ok a, w') => f a w'
  | (Raise e, w') => (Raise e, w')
  | (Hang, w') => (Hang, w')
  end.

Definition raise {A} (e : exn) : M A := fun w => (Raise e, w).
Definition hang {A} : M A := fun w => (Hang, w).
Definition modify (f : world -> world) : M unit := fun w => (Ok tt, f w).
Definition note (ev : event) : M unit := modify (emit ev).
Definition print (l : log_line) : M unit := note (Printed l).

(** [try: body except Exception as e: handler(e)] *)
Definition try_except {A} (body : M A) (handler : exn -> M A) : M A := fun w =>
  match body w with
  | (Raise e, w') => handler e w'
  | r => r
  end.

(** [try: body finally: cleanup]: the cleanup runs whether the body
    returned or raised, and the outcome of the body stands unless the
    cleanup itself fails. *)
Definition try_finally {A} (body : M A) (cleanup : M unit) : M A := fun w =>
  match body w with
  | (Hang, w') => (Hang, w')
  | (r, w') =>
      match cleanup w' with
      | (Ok _, w'') => (r, w'')
      | (Raise e, w'') => (Raise e, w'')
      | (Hang, w'') => (Hang, w'')
      end
  end.

(** ** [metrics.py] *)

Definition inc (label : string) (m : gmap string Z) : gmap string Z :=
  <[label := metric_value m label + 1]> m.
Definition dec (label : string) (m : gmap string Z) : gmap string Z :=
  <[label := metric_value m label - 1]> m.

Definition increment_inflight : M unit :=
  modify (fun w => with_inflight (inc "default" (agent_inflight w)) w);;
  note InflightInc.

Definition decrement_inflight : M unit :=
  modify (fun w => with_inflight (dec "default" (agent_inflight w)) w);;
  note InflightDec.

Definition record_job_success : M unit :=
  modify (fun w => with_processed (inc "ok" (agent_jobs_processed w)) w);;
  note (ProcessedInc "ok").

Definition record_job_error : M unit :=
  modify (fun w => with_processed (inc "err" (agent_jobs_processed w)) w);;
  note (ProcessedInc "err").

(** [agent_job_duration.observe(elapsed)]: the histogram is kept as the
    number of its observations. *)
Definition observe_duration : M unit :=
  modify (fun w => with_duration (S (agent_job_duration w)) w);;
  note DurationObserved.

(** ** [worker.py] *)

(** The dict [process_job] returns. *)
Record job_result := JobResult {
  res_job_id : json;
  res_status : string;
  res_question : json;
  res_answer : string;
  res_sources : json;
  res_worker_id : string;
  res_completed_at : string;
}.

Definition wrongtype : exn :=
  Exn RedisResponseError "WRONGTYPE Operation against a key holding the wrong kind of value".

Section Worker.
Context (cfg : config) (env : environment).

(** [str(v)], which an f-string applies to a field. *)
Definition format_value (v : json) : string :=
  match v with
  | JStr s => s
  | JNull => "None"
  | JBool true => "True"
  | JBool false => "False"
  | _ => py_repr env v
  end.

(** [obj.get(k, default)] *)
Definition py_get (obj : json) (k : string) (default : json) : M json :=
  match obj with
  | JObj members => mret (dict_get members k default)
  | _ => raise (Exn AttributeError
                  ("'" +:+ type_name obj +:+ "' object has no attribute 'get'"))
  end.

(** [v[:n]]; on a dict, the error of Python up to 3.11.  A string is
    cut by bytes here and by code points in Python, which shows in the
    log line only. *)
Definition py_slice (v : json) (n : nat) : M json :=
  match v with
  | JStr s => mret (JStr (substring 0 n s))
  | JArr items => mret (JArr (take n items))
  | JObj _ => raise (Exn TypeError "unhashable type: 'slice'")
  | _ => raise (Exn TypeError
                  ("'" +:+ type_name v +:+ "' object is not subscriptable"))
  end.

Definition signal_handler (signum : Z) : M unit :=
  print (LogSignal signum);;
  modify (with_shutdown true).

(** What an external call leaves behind: the next number is taken, and
    a termination signal that arrives while the call runs has had its
    handler run. *)
Definition deliver (w : world) : world :=
  let w' := with_tick (S (tick w)) w in
  match signal_during env (tick w) with
  | Some signum => snd (signal_handler signum w')
  | None => w'
  end.

Definition external_call : M nat :=
  fun w => (Ok (tick w), deliver w).

Definition on_server {A} (exec : gmap string entry -> reply A) : M A :=
  fun w =>
    match exec (keys w) with
    | Done a ks => (Ok a, with_keys ks w)
    | WrongType => (Raise wrongtype, w)
    end.

Definition send {A} (c : command) (exec : gmap string entry -> reply A) : M A :=
  note (Sent c);;
  t ← external_call;
  match redis_fault env t with
  | Some e => raise e
  | None => on_server exec
  end.

(** [client.brpop(key, timeout=timeout)]: [None] when the wait times out;
    a timeout of 0 waits without limit. *)
Definition brpop (key : string) (timeout : Z) : M (option (string * string)) :=
  note (Sent (BRPOP key timeout));;
  t ← external_call;
  match redis_fault env t with
  | Some e => raise e
  | None =>
      if timeout <? 0 then raise (Exn RedisResponseError "ERR timeout is negative")
      else
        popped ← on_server (redis_rpop key);
        match popped with
        | Some v => mret (Some (key, v))
        | None => if timeout =? 0 then hang else mret None
        end
  end.

Definition hset (key : string) (mapping : list (string * string)) : M unit :=
  send (HSET key mapping) (redis_hset key mapping).

Definition expire (key : string) (seconds : Z) : M bool :=
  send (EXPIRE key seconds) (redis_expire key seconds).

Definition sleep (seconds : Z) : M unit :=
  note (Slept seconds);;
  _ ← external_call;
  mret tt.

Definition utcnow : M string :=
  fun w => (Ok (utcnow_isoformat env (tick w)), w).

(** [rag_engine.answer(question)]: retrieval and generation are one
    external call; their two latency histograms are left out. *)
Definition answer (question : json) : M (string * json) :=
  note (PipelineCalled question);;
  t ← external_call;
  match rag_answer env t question with
  | Answered a sources => mret (a, sources)
  | PipelineRaised e => raise e
  | PipelineHangs => hang
  end.

Definition process_job (job_data : json) : M job_result :=
  job_id ← py_get job_data "job_id" (JStr "unknown");
  question ← py_get job_data "question" (JStr "");
  if negb (truthy question) then
    raise (Exn ValueError "Job missing 'question' field")
  else
    excerpt ← py_slice question 50;
    print (LogProcessing (format_value job_id) (format_value excerpt));;
    result ← answer question;
    now ← utcnow;
    mret {| res_job_id := job_id;
            res_status := "completed";
            res_question := question;
            res_answer := fst result;
            res_sources := snd result;
            res_worker_id := WORKER_ID cfg;
            res_completed_at := now |}.

Definition result_key (job_id : json) : string :=
  RESULT_PREFIX cfg +:+ format_value job_id.

Definition result_mapping (result : job_result) : list (string * string) :=
  [("status", res_status result);
   ("answer", res_answer result);
   ("sources", json_dumps env (res_sources result));
   ("worker_id", res_worker_id result);
   ("completed_at", res_completed_at result)].

Definition store_result (job_id : json) (result : job_result) : M unit :=
  let key := result_key job_id in
  hset key (result_mapping result);;
  expire key (RESULT_TTL cfg);;
  print (LogResultStored key).

Definition error_mapping (error now : string) : list (string * string) :=
  [("status", "error");
   ("error", error);
   ("worker_id", WORKER_ID cfg);
   ("completed_at", now)].

Definition store_error (job_id : json) (error : string) : M unit :=
  let key := result_key job_id in
  now ← utcnow;
  hset key (error_mapping error now);;
  expire key (RESULT_TTL cfg);;
  print (LogErrorStored key).

(** The three suites of the inner [try] statement. *)
Definition attempt (job_id job_data : json) : M unit :=
  result ← process_job job_data;
  store_result job_id result;;
  record_job_success.

Definition on_failure (job_id : json) (e : exn) : M unit :=
  print (LogJobFailed (format_value job_id) (exn_msg e));;
  store_error job_id (exn_msg e);;
  record_job_error.

Definition cleanup (job_id : json) : M unit :=
  observe_duration;;
  decrement_inflight;;
  print (LogJobCompleted (format_value job_id)).

(** The body of the outer [try] of the loop. *)
Definition iteration_body : M unit :=
  result ← brpop (QUEUE_NAME cfg) (BRPOP_TIMEOUT cfg);
  match result with
  | None => mret tt
  | Some (queue_name, job_json) =>
      match json_loads env job_json with
      | JSONDecodeError msg =>
          print (LogInvalidJSON msg);;
          record_job_error
      | LoadsRaised e => raise e
      | Loaded job_data =>
          job_id ← py_get job_data "job_id" (JStr "unknown");
          increment_inflight;;
          try_finally
            (try_except (attempt job_id job_data) (on_failure job_id))
            (cleanup job_id)
      end
  end.

(** The two handlers of the outer [try]. *)
Definition on_loop_error (e : exn) : M unit :=
  if is_connection_error e then
    print (LogConnectionError (exn_msg e));;
    sleep 5
  else
    print (LogUnexpected (exn_msg e));;
    sleep 1.

(** One pass of the [while] loop, with its two handlers. *)
Definition iteration : M unit :=
  try_except iteration_body on_loop_error.

Inductive loop_result :=
| ShutdownComplete
| StillRunning
| Stalled
| Crashed (e : exn).

(** The main loop of [worker_loop], [while not _shutdown: ...], cut after
    [fuel] passes; the start of the function (metrics server, engine,
    client) is done once before it and is not part of the loop.
    [Stalled]: a call never came back; [Crashed]: an exception left the
    loop. *)
Fixpoint worker_loop (fuel : nat) (w : world) : loop_result * world :=
  if _shutdown w then (ShutdownComplete, emit (Printed LogShutdownComplete) w)
  else
    match fuel with
    | O => (StillRunning, w)
    | S fuel' =>
        match iteration w with
        | (Ok _, w') => worker_loop fuel' w'
        | (Raise e, w') => (Crashed e, w')
        | (Hang, w') => (Stalled, w')
        end
    end.

End Worker.

(** ** [push_jobs.py] *)

(** The loop of [push_jobs]: pass [i] pushes [payload i], the text
    [json.dumps] gives for the job built in that pass, to the left end of
    the queue.  A push the server refuses ends the run. *)
Fixpoint push_from (queue_name : string) (payload : nat -> string) (i count : nat)
    (ks : gmap string entry) : reply unit :=
  match count with
  | O => Done tt ks
  | S count' =>
      match redis_lpush queue_name (payload i) ks with
      | Done _ ks' => push_from queue_name payload (S i) count' ks'
      | WrongType => WrongType
      end
  end.

Definition push_jobs (queue_name : string) (payload : nat -> string) (count : nat)
    (ks : gmap string entry) : reply unit :=
  push_from queue_name payload 0 count ks.

(** ** Several workers on one queue *)

(** Worker processes share the server and nothing else.  The server runs
    one command at a time, so a run of the pool is a sequence of whole
    commands: a producer pushing, or worker [i] making the [brpop] call of
    its loop. *)
Inductive action :=
| Push (payload : string)
| Pop (worker : nat).

Record pool := Pool {
  server : gmap string entry;
  local : nat -> world;
  delivered : list (nat * string);
}.

Definition pool_step (cfg : config) (envs : nat -> environment) (a : action)
    (p : pool) : pool :=
  match a with
  | Push payload =>
      match redis_lpush (QUEUE_NAME cfg) payload (server p) with
      | Done _ ks => Pool ks (local p) (delivered p)
      | WrongType => p
      end
  | Pop i =>
      match brpop (envs i) (QUEUE_NAME cfg) (BRPOP_TIMEOUT cfg)
                  (with_keys (server p) (local p i)) with
      | (r, w') =>
          Pool (keys w')
               (fun j => if Nat.eqb j i then w' else local p j)
               (match r with
                | Ok (Some (_, v)) => delivered p ++ [(i, v)]
                | _ => delivered p
                end)
      end
  end.

Definition pool_run (cfg : config) (envs : nat -> environment)
    (schedule : list action) (p : pool) : pool :=
  fold_left (fun p a => pool_step cfg envs a p) schedule p.

(** The payloads a schedule pushes, in order. *)
Definition pushed (schedule : list action) : list string :=
  flat_map (fun a => match a with Push v => [v] | Pop _ => [] end) schedule.

(** ** A concrete environment for the examples *)

Module Example.

Definition dq : string := String "034"%char EmptyString.
Definition quoted (s : string) : string := dq +:+ s +:+ dq.

(** [json.dumps] of a dict of strings, in the order of its items. *)
Fixpoint dumps_items (items : list (string * string)) : string :=
  match items with
  | [] => ""
  | [(k, v)] => quoted k +:+ ": " +:+ quoted v
  | (k, v) :: rest => quoted k +:+ ": " +:+ quoted v +:+ ", " +:+ dumps_items rest
  end.
Definition dumps_dict (items : list (string * string)) : string :=
  "{" +:+ dumps_items items +:+ "}".

Definition job_fields (items : list (string * string)) : json :=
  JObj (map (fun kv => (fst kv, JStr (snd kv))) items).

(** The job of the round-trip scenario, as [push_jobs] builds it. *)
Definition abc123 : list (string * string) :=
  [("job_id", "job_abc123");
   ("question", "What is the refund policy?");
   ("submitted_at", "2024-01-01T00:00:00Z")].
(** A job with an empty question, one with no question, one with no id. *)
Definition empty_question : list (string * string) :=
  [("job_id", "job_e"); ("question", "")].
Definition no_question : list (string * string) :=
  [("job_id", "job_m")].
Definition no_id : list (string * string) :=
  [("question", "What is the refund policy?")].
Definition no_id_2 : list (string * string) :=
  [("question", "How long does shipping take?")].

Definition known_jobs : list (list (string * string)) :=
  [abc123; empty_question; no_question; no_id; no_id_2].

(** [json.loads] on the payloads of the examples: the serialised known
    jobs decode to themselves, and the text not-json is no JSON. *)
Fixpoint loads_among (jobs : list (list (string * string))) (payload : string)
  : loads_result :=
  match jobs with
  | [] => JSONDecodeError "Expecting value: line 1 column 1 (char 0)"
  | job :: rest =>
      if String.eqb payload (dumps_dict job) then Loaded (job_fields job)
      else loads_among rest payload
  end.

Definition dumps (v : json) : string :=
  match v with
  | JArr [] => "[]"
  | JObj [] => "{}"
  | JStr s => quoted s
  | JBool true => "true"
  | JBool false => "false"
  | _ => "null"
  end.

Definition never {A} (t : nat) : option A := None.

Definition at_call {A} (n : nat) (a : A) (t : nat) : option A :=
  if Nat.eqb t n then Some a else None.

Definition stub_pipeline (t : nat) (question : json) : pipeline_outcome :=
  Answered "30 days" (JArr []).

Definition failing_pipeline (t : nat) (question : json) : pipeline_outcome :=
  PipelineRaised (Exn OtherException "Ollama call failed with status code 500").

(** An environment is fixed by its faults, its pipeline and its signals. *)
Definition env_of (faults : nat -> option exn)
    (pipeline : nat -> json -> pipeline_outcome)
    (signals : nat -> option Z) : environment :=
  {| json_loads := loads_among known_jobs;
     json_dumps := dumps;
     py_repr := fun _ => "?";
     redis_fault := faults;
     rag_answer := pipeline;
     utcnow_isoformat := fun _ => "2024-01-01T00:00:05.123456";
     signal_during := signals |}.

Definition quiet : environment := env_of never stub_pipeline never.

(** A fresh process facing a server that holds [ks]. *)
Definition fresh (ks : gmap string entry) : world :=
  {| keys := ks; tick := 0; _shutdown := false;
     agent_inflight := ∅; agent_jobs_processed := ∅;
     agent_job_duration := 0; trace := [] |}.

(** The queue of the default configuration holding [payloads], the
    head being the payload pushed last. *)
Definition queue_of (payloads : list string) : gmap string entry :=
  {[ "rag:jobs" := Entry (RList payloads) None ]}.

End Example.

(** * Vocabulary of the specification *)

(** A computation respects a relation on worlds when every run of it,
    whatever its outcome, ends in a related world. *)
Definition respects {A} (R : relation world) (m : M A) : Prop :=
  forall w, R w (snd (m w)).

(** The only thing a call adds to the trace is the line of the handler. *)
Definition signal_lines (env : environment) (t : nat) : list event :=
  match signal_during env t with
  | Some signum => [Printed (LogSignal signum)]
  | None => []
  end.

(** ** Events of a pass *)

Definition is_inflight_event (ev : event) : bool :=
  match ev with
  | InflightInc | InflightDec => true
  | _ => false
  end.

(** The events that make up the processing of a job: the pipeline call,
    the writes to the result store and the outcome counter. *)
Definition is_job_work (ev : event) : bool :=
  match ev with
  | PipelineCalled _ | Sent (HSET _ _) | Sent (EXPIRE _ _) | ProcessedInc _ => true
  | _ => false
  end.

Definition not_inflight (ev : event) : bool := negb (is_inflight_event ev).

Definition idle (ev : event) : bool :=
  negb (is_inflight_event ev) && negb (is_job_work ev).

(** [calm ok w w']: from [w] to [w'] the gauge was left alone and every
    new event passes [ok]. *)
Definition calm (ok : event -> bool) (w w' : world) : Prop :=
  agent_inflight w' = agent_inflight w /\
  exists l, trace w' = trace w ++ l /\ forallb ok l = true.

(** ** The steps of a run *)

Definition is_signal_line (ev : event) : bool :=
  match ev with
  | Printed (LogSignal _) => true
  | _ => false
  end.

(** The events of a trace that the code of the loop produced itself: all
    but the lines printed by the signal handler, which can come at any
    place. *)
Definition steps (l : list event) : list event :=
  List.filter (fun ev => negb (is_signal_line ev)) l.

(** The commands among some events. *)
Definition commands (l : list event) : list command :=
  flat_map (fun ev => match ev with Sent c => [c] | _ => [] end) l.

(** What a step leaves of the process itself: its three metrics. *)
Definition same_metrics (w w' : world) : Prop :=
  agent_inflight w' = agent_inflight w /\
  agent_jobs_processed w' = agent_jobs_processed w /\
  agent_job_duration w' = agent_job_duration w.

(** ** The result store *)

Definition holds_list (ks : gmap string entry) (key : string) : bool :=
  match ks !! key with
  | Some (Entry (RList _) _) => true
  | _ => false
  end.

(** The fields of the hash at [key]; none when there is no hash. *)
Definition fields_at (ks : gmap string entry) (key : string) : gmap string string :=
  match ks !! key with
  | Some (Entry (RHash fields) _) => fields
  | _ => ∅
  end.

(** The server after an HSET of [mapping] and an EXPIRE of [seconds] on
    [key], both taken. *)
Definition record_written (key : string) (mapping : list (string * string))
    (seconds : Z) (ks : gmap string entry) : gmap string entry :=
  <[key := Entry (RHash (list_to_map mapping ∪ fields_at ks key)) (Some seconds)]> ks.

(** The [finally] suite. *)
Definition finish (env : environment) (job_id : json) (w : world) : world :=
  snd (cleanup env job_id w).

(** What the result store is asked to write: the argument of
    [store_result] or of [store_error]. *)
Inductive write :=
| Success (result : job_result)
| Failure (error : string).

Definition store (cfg : config) (env : environment) (job_id : json) (wr : write) : M unit :=
  match wr with
  | Success result => store_result cfg env job_id result
  | Failure error => store_error cfg env job_id error
  end.

(** The mapping a write sends when it starts at call [t]. *)
Definition mapping_of (cfg : config) (env : environment) (wr : write) (t : nat)
  : list (string * string) :=
  match wr with
  | Success result => result_mapping env result
  | Failure error => error_mapping cfg error (utcnow_isoformat env t)
  end.

Definition same_kind (a b : write) : bool :=
  match a, b with
  | Success _, Success _ | Failure _, Failure _ => true
  | _, _ => false
  end.

(** The second of two writes, made in the world the first one left, and
    the same write made at the same moment to a server that never saw the
    first: a pure overwrite leaves the same server in both cases. *)
Definition pure_overwrite (cfg : config) (env : environment) (job_id : json)
    (first second : write) (w : world) : Prop :=
  forall w1 w2 w2',
    store cfg env job_id first w = (Ok tt, w1) ->
    store cfg env job_id second w1 = (Ok tt, w2) ->
    store cfg env job_id second (with_keys (keys w) w1) = (Ok tt, w2') ->
    keys w2 = keys w2'.

(** C5 as the spec states it: once the write of the result has been
    refused, the pass sends the store nothing more and does not count the
    job under err. *)
Definition refused_write_only_logged (cfg : config) (env : environment) (w : world) : Prop :=
  forall q payload w1 members result w2 e w3 r w',
    brpop env (QUEUE_NAME cfg) (BRPOP_TIMEOUT cfg) w = (Ok (Some (q, payload)), w1) ->
    json_loads env payload = Loaded (JObj members) ->
    process_job cfg env (JObj members) (snd (increment_inflight w1)) = (Ok result, w2) ->
    store_result cfg env (dict_get members "job_id" (JStr "unknown")) result w2
      = (Raise e, w3) ->
    iteration cfg env w = (r, w') ->
    commands (trace w') = commands (trace w3) /\
    processed w' "err" = processed w "err".

(** ** What a computation leaves unchanged *)

Definition unchanged {T} (f : world -> T) : relation world :=
  fun w w' => f w' = f w.

(** A reading of the metrics: it does not look at the server, the call
    counter, the shutdown flag or the trace. *)
Class MetricReading {T} (f : world -> T) := {
  reading_emit : forall ev w, f (emit ev w) = f w;
  reading_tick : forall t w, f (with_tick t w) = f w;
  reading_shutdown : forall b w, f (with_shutdown b w) = f w;
  reading_keys : forall ks w, f (with_keys ks w) = f w;
}.

(** ** The queue *)

Definition holds_hash (ks : gmap string entry) (key : string) : bool :=
  match ks !! key with
  | Some (Entry (RHash _) _) => true
  | _ => false
  end.

(** The payloads waiting under [key], the oldest first. *)
Definition pending (ks : gmap string entry) (key : string) : list string :=
  match ks !! key with
  | Some (Entry (RList items) _) => rev items
  | _ => []
  end.

(** [n] pops in a row by one worker; the results of those that returned,
    up to the first that did not. *)
Fixpoint pops (env : environment) (key : string) (timeout : Z) (n : nat) (w : world)
  : list (option (string * string)) * world :=
  match n with
  | O => ([], w)
  | S n' =>
      match brpop env key timeout w with
      | (Ok r, w') =>
          let (rs, w'') := pops env key timeout n' w' in (r :: rs, w'')
      | (_, w') => ([], w')
      end
  end.

(** What has been pushed is what has been handed out followed by what
    still waits. *)
Definition conserved (cfg : config) (before : list string) (p : pool) : Prop :=
  holds_hash (server p) (QUEUE_NAME cfg) = false /\
  before = map snd (delivered p) ++ pending (server p) (QUEUE_NAME cfg).

(** Whether a termination signal arrives during call [t]. *)
Definition arrives (env : environment) (t : nat) : bool :=
  match signal_during env t with
  | Some _ => true
  | None => false
  end.

(** Whether one arrives during the calls [lo], ..., [hi - 1]. *)
Definition signalled (env : environment) (lo hi : nat) : bool :=
  existsb (arrives env) (seq lo (hi - lo)).

(** From [w] to [w'] calls were made, and the flag is up in [w'] exactly
    when it was up in [w] or a signal arrived during one of them. *)
Definition flagged (env : environment) (w w' : world) : Prop :=
  (tick w <= tick w')%nat /\
  _shutdown w' = _shutdown w || signalled env (tick w) (tick w').

(** The same environment with other signals. *)
Definition with_signals (signals : nat -> option Z) (env : environment) : environment :=
  {| json_loads := json_loads env;
     json_dumps := json_dumps env;
     py_repr := py_repr env;
     redis_fault := redis_fault env;
     rag_answer := rag_answer env;
     utcnow_isoformat := utcnow_isoformat env;
     signal_during := signals |}.

(** Two worlds that differ at most in the shutdown flag and in the lines
    the signal handler has printed. *)
Definition alike (w w' : world) : Prop :=
  keys w = keys w' /\
  tick w = tick w' /\
  agent_inflight w = agent_inflight w' /\
  agent_jobs_processed w = agent_jobs_processed w' /\
  agent_job_duration w = agent_job_duration w' /\
  steps (trace w) = steps (trace w').

(** Two computations that cannot be told apart on such worlds. *)
Definition sim {A} (m m' : M A) : Prop :=
  forall w w', alike w w' ->
    fst (m w) = fst (m' w') /\ alike (snd (m w)) (snd (m' w')).

(** ** Concrete runs *)

Module Overwrite.
Import Example.

Definition refund_result : job_result :=
  {| res_job_id := JStr "job_abc123";
     res_status := "completed";
     res_question := JStr "What is the refund policy?";
     res_answer := "30 days";
     res_sources := JArr [];
     res_worker_id := "worker-local";
     res_completed_at := "2024-01-01T00:00:05.123456" |}.

Definition after_first : world :=
  snd (store default_config quiet (JStr "job_abc123") (Success refund_result) (fresh ∅)).
Definition after_second : world :=
  snd (store default_config quiet (JStr "job_abc123") (Failure "timed out") after_first).
Definition second_alone : world :=
  snd (store default_config quiet (JStr "job_abc123") (Failure "timed out")
         (with_keys ∅ after_first)).

End Overwrite.

Module Refusal.
Import Example.

(** The connection drops while the result is written (call 2 of the
    pass); the client reconnects for the next command. *)
Definition connection_reset : exn :=
  Exn RedisConnectionError "Error 104 while writing to socket. Connection reset by peer.".
Definition env : environment := env_of (at_call 2 connection_reset) stub_pipeline never.

Definition start : world := fresh (queue_of [dumps_dict abc123]).
Definition popped : world := snd (brpop env "rag:jobs" 5 start).
Definition processed_job : outcome job_result * world :=
  process_job default_config env (job_fields abc123) (snd (increment_inflight popped)).
Definition answered : job_result :=
  {| res_job_id := JStr "job_abc123";
     res_status := "completed";
     res_question := JStr "What is the refund policy?";
     res_answer := "30 days";
     res_sources := JArr [];
     res_worker_id := "worker-local";
     res_completed_at := "2024-01-01T00:00:05.123456" |}.
Definition refused : world :=
  snd (store_result default_config env (JStr "job_abc123") answered (snd processed_job)).
Definition finished : world := snd (iteration default_config env start).

End Refusal.

Module Runs.
Import Example.

(** One valid job, then the malformed payload in front of it. *)
Definition one_job : world := fresh (queue_of [dumps_dict abc123]).
Definition malformed_first : world := fresh (queue_of [dumps_dict abc123; "not-json"]).
Definition empty_question_job : world := fresh (queue_of [dumps_dict empty_question]).
Definition job_without_id : world := fresh (queue_of [dumps_dict no_id]).

Definition popped (env : environment) (w : world) : world :=
  snd (brpop env "rag:jobs" 5 w).

(** SIGTERM arrives while the pipeline works on the job (call 1). *)
Definition interrupted : environment := env_of never stub_pipeline (at_call 1 15).

(** Two workers and a producer. *)
Definition two_workers : pool :=
  {| server := ∅; local := fun _ => fresh ∅; delivered := [] |}.
Definition busy_schedule : list action :=
  [Push "first"; Pop 0; Push "second"; Push "third"; Pop 1; Pop 0; Pop 1].

End Runs.

(** * Reasoning about computations *)

Lemma bind_unfold {A B} (m : M A) (f : A -> M B) (w : world) :
  (m ≫= f) w =
  match m w with
  | (Ok a, w') => f a w'
  | (Raise e, w') => (Raise e, w')
  | (Hang, w') => (Hang, w')
  end.
Proof. reflexivity. Qed.

Lemma bind_ok {A B} (m : M A) (f : A -> M B) (w w' : world) (a : A) :
  m w = (Ok a, w') -> (m ≫= f) w = f a w'.
Proof. intros H. rewrite bind_unfold, H. reflexivity. Qed.

Lemma bind_raise {A B} (m : M A) (f : A -> M B) (w w' : world) (e : exn) :
  m w = (Raise e, w') -> (m ≫= f) w = (Raise e, w').
Proof. intros H. rewrite bind_unfold, H. reflexivity. Qed.

Section Respects.
Context (R : relation world) `{!PreOrder R}.

Lemma respects_ret {A} (a : A) : respects R (mret a).
Proof. intros w. simpl. reflexivity. Qed.

Lemma respects_raise {A} (e : exn) : respects R (@raise A e).
Proof. intros w. simpl. reflexivity. Qed.

Lemma respects_hang {A} : respects R (@hang A).
Proof. intros w. simpl. reflexivity. Qed.

Lemma respects_bind {A B} (m : M A) (f : A -> M B) :
  respects R m -> (forall a, respects R (f a)) -> respects R (m ≫= f).
Proof.
  intros Hm Hf w. rewrite bind_unfold.
  specialize (Hm w). destruct (m w) as [[a | e | ] w1]; simpl in *; try assumption.
  transitivity w1; [assumption | apply Hf].
Qed.

Lemma respects_try_except {A} (body : M A) (handler : exn -> M A) :
  respects R body -> (forall e, respects R (handler e)) ->
  respects R (try_except body handler).
Proof.
  intros Hb Hh w. unfold try_except.
  specialize (Hb w). destruct (body w) as [[a | e | ] w1]; simpl in *; try assumption.
  transitivity w1; [assumption | apply Hh].
Qed.

Lemma respects_try_finally {A} (body : M A) (fin : M unit) :
  respects R body -> respects R fin -> respects R (try_finally body fin).
Proof.
  intros Hb Hf w. unfold try_finally.
  specialize (Hb w). destruct (body w) as [[a | e | ] w1]; simpl in *; try assumption.
  all: specialize (Hf w1); destruct (fin w1) as [[[] | e' | ] w2]; simpl in *.
  all: transitivity w1; assumption.
Qed.

End Respects.

(** Splits a goal [respects R m] along the syntax of [m]. *)
Ltac respects_split :=
  repeat match goal with
  | |- respects _ (mret _) => apply respects_ret; solve [typeclasses eauto]
  | |- respects _ (raise _) => apply respects_raise; solve [typeclasses eauto]
  | |- respects _ hang => apply respects_hang; solve [typeclasses eauto]
  | |- respects _ (_ ≫= _) => apply respects_bind; [typeclasses eauto | | intros ?]
  | |- respects _ (try_except _ _) =>
      apply respects_try_except; [typeclasses eauto | | intros ?]
  | |- respects _ (try_finally _ _) =>
      apply respects_try_finally; [typeclasses eauto | | ]
  | |- respects _ (match ?x with _ => _ end) => destruct x
  end.

(** ** Facts about one external call *)

Section Calls.
Context (env : environment).

Lemma keys_deliver w : keys (deliver env w) = keys w.
Proof. unfold deliver. destruct (signal_during env (tick w)); reflexivity. Qed.

Lemma tick_deliver w : tick (deliver env w) = S (tick w).
Proof. unfold deliver. destruct (signal_during env (tick w)); reflexivity. Qed.

Lemma agent_inflight_deliver w : agent_inflight (deliver env w) = agent_inflight w.
Proof. unfold deliver. destruct (signal_during env (tick w)); reflexivity. Qed.

Lemma agent_jobs_processed_deliver w :
  agent_jobs_processed (deliver env w) = agent_jobs_processed w.
Proof. unfold deliver. destruct (signal_during env (tick w)); reflexivity. Qed.

Lemma agent_job_duration_deliver w :
  agent_job_duration (deliver env w) = agent_job_duration w.
Proof. unfold deliver. destruct (signal_during env (tick w)); reflexivity. Qed.

Lemma trace_deliver w : trace (deliver env w) = trace w ++ signal_lines env (tick w).
Proof.
  unfold deliver, signal_lines. destruct (signal_during env (tick w)); simpl.
  - reflexivity.
  - symmetry. apply app_nil_r.
Qed.

Lemma shutdown_deliver w :
  _shutdown (deliver env w) = _shutdown w || bool_decide (is_Some (signal_during env (tick w))).
Proof.
  unfold deliver. destruct (signal_during env (tick w)); simpl.
  - symmetry. apply orb_true_r.
  - symmetry. apply orb_false_r.
Qed.

End Calls.

(** ** The inflight gauge is touched only by its two operations *)

#[global] Instance calm_preorder ok : PreOrder (calm ok).
Proof.
  split.
  - intros w. split; [reflexivity |]. exists []. split; [symmetry; apply app_nil_r | reflexivity].
  - intros w1 w2 w3 [Hg1 (l1 & Ht1 & Hl1)] [Hg2 (l2 & Ht2 & Hl2)]. split.
    + congruence.
    + exists (l1 ++ l2). split.
      * rewrite Ht2, Ht1. symmetry. apply app_assoc.
      * rewrite forallb_app, Hl1, Hl2. reflexivity.
Qed.

Lemma calm_same ok w w' :
  agent_inflight w' = agent_inflight w -> trace w' = trace w -> calm ok w w'.
Proof.
  intros Hg Ht. split; [assumption |]. exists []. split; [| reflexivity].
  rewrite Ht. symmetry. apply app_nil_r.
Qed.

Lemma idle_not_inflight ev : idle ev = true -> not_inflight ev = true.
Proof. unfold idle, not_inflight. intros H. apply andb_true_iff in H. tauto. Qed.

Lemma calm_idle w w' : calm idle w w' -> calm not_inflight w w'.
Proof.
  intros [Hg (l & Ht & Hl)]. split; [assumption |]. exists l. split; [assumption |].
  rewrite forallb_forall in *. intros ev Hev. apply idle_not_inflight, Hl, Hev.
Qed.

Section Calm.
Context (cfg : config) (env : environment) (ok : event -> bool).
Hypothesis ok_printed : forall l, ok (Printed l) = true.

Lemma calm_note ev : ok ev = true -> respects (calm ok) (note ev).
Proof.
  intros Hev w. split; [reflexivity |]. exists [ev]. split; [reflexivity |].
  simpl. rewrite Hev. reflexivity.
Qed.

Lemma calm_print l : respects (calm ok) (print l).
Proof. apply calm_note, ok_printed. Qed.

Lemma calm_external_call : respects (calm ok) (external_call env).
Proof.
  intros w. simpl. split; [apply agent_inflight_deliver |].
  exists (signal_lines env (tick w)). split; [apply trace_deliver |].
  unfold signal_lines. destruct (signal_during env (tick w)); simpl; [| reflexivity].
  rewrite ok_printed. reflexivity.
Qed.

Lemma calm_on_server {A} (exec : gmap string entry -> reply A) :
  respects (calm ok) (on_server exec).
Proof.
  intros w. unfold on_server. destruct (exec (keys w)); simpl; apply calm_same; reflexivity.
Qed.

Lemma calm_utcnow : respects (calm ok) (utcnow env).
Proof. intros w. simpl. reflexivity. Qed.

Lemma calm_send {A} c (exec : gmap string entry -> reply A) :
  ok (Sent c) = true -> respects (calm ok) (send env c exec).
Proof.
  intros Hc. unfold send. respects_split.
  - apply calm_note, Hc.
  - apply calm_external_call.
  - apply calm_on_server.
Qed.

Lemma calm_brpop key timeout :
  ok (Sent (BRPOP key timeout)) = true -> respects (calm ok) (brpop env key timeout).
Proof.
  intros Hc. unfold brpop. respects_split.
  - apply calm_note, Hc.
  - apply calm_external_call.
  - apply calm_on_server.
Qed.

Lemma calm_sleep seconds :
  ok (Slept seconds) = true -> respects (calm ok) (sleep env seconds).
Proof.
  intros Hs. unfold sleep. respects_split.
  - apply calm_note, Hs.
  - apply calm_external_call.
Qed.

Lemma calm_py_get obj k d : respects (calm ok) (py_get obj k d).
Proof. unfold py_get. respects_split. Qed.

Lemma calm_py_slice v n : respects (calm ok) (py_slice v n).
Proof. unfold py_slice. respects_split. Qed.

End Calm.

Section CalmWorker.
Context (cfg : config) (env : environment).

Lemma calm_modify ok (f : world -> world) :
  (forall w, agent_inflight (f w) = agent_inflight w) ->
  (forall w, trace (f w) = trace w) ->
  respects (calm ok) (modify f).
Proof. intros Hg Ht w. simpl. apply calm_same; [apply Hg | apply Ht]. Qed.

Lemma calm_record_job_success : respects (calm not_inflight) record_job_success.
Proof.
  unfold record_job_success. respects_split.
  - apply calm_modify; reflexivity.
  - apply calm_note. reflexivity.
Qed.

Lemma calm_record_job_error : respects (calm not_inflight) record_job_error.
Proof.
  unfold record_job_error. respects_split.
  - apply calm_modify; reflexivity.
  - apply calm_note. reflexivity.
Qed.

Lemma calm_answer question : respects (calm not_inflight) (answer env question).
Proof.
  unfold answer. respects_split.
  - apply calm_note. reflexivity.
  - apply calm_external_call. reflexivity.
Qed.

Lemma calm_process_job job_data :
  respects (calm not_inflight) (process_job cfg env job_data).
Proof.
  unfold process_job. respects_split.
  - apply calm_py_get.
  - apply calm_py_get.
  - apply calm_py_slice.
  - apply calm_print. reflexivity.
  - apply calm_answer.
  - apply calm_utcnow.
Qed.

Lemma calm_store_result job_id result :
  respects (calm not_inflight) (store_result cfg env job_id result).
Proof.
  unfold store_result, hset, expire. respects_split.
  - apply calm_send; reflexivity.
  - apply calm_send; reflexivity.
  - apply calm_print. reflexivity.
Qed.

Lemma calm_store_error job_id error :
  respects (calm not_inflight) (store_error cfg env job_id error).
Proof.
  unfold store_error, hset, expire. respects_split.
  - apply calm_utcnow.
  - apply calm_send; reflexivity.
  - apply calm_send; reflexivity.
  - apply calm_print. reflexivity.
Qed.

(** The [try] and [except] suites leave the gauge alone. *)
Lemma calm_attempt job_id job_data :
  respects (calm not_inflight)
    (try_except (attempt cfg env job_id job_data) (on_failure cfg env job_id)).
Proof.
  unfold attempt, on_failure. respects_split.
  - apply calm_process_job.
  - apply calm_store_result.
  - apply calm_record_job_success.
  - apply calm_print. reflexivity.
  - apply calm_store_error.
  - apply calm_record_job_error.
Qed.

(** So do the pop and the handlers of the loop, which do no job work
    either. *)
Lemma calm_pop : respects (calm idle) (brpop env (QUEUE_NAME cfg) (BRPOP_TIMEOUT cfg)).
Proof. apply calm_brpop; reflexivity. Qed.

Lemma calm_on_loop_error e : respects (calm idle) (on_loop_error env e).
Proof.
  unfold on_loop_error. respects_split.
  - apply calm_print. reflexivity.
  - apply calm_sleep; reflexivity.
  - apply calm_print. reflexivity.
  - apply calm_sleep; reflexivity.
Qed.

Lemma on_loop_error_returns e w :
  fst (on_loop_error env e w) = Ok tt.
Proof. unfold on_loop_error. destruct (is_connection_error e); reflexivity. Qed.

Lemma metric_value_inc label m : metric_value (inc label m) label = metric_value m label + 1.
Proof. unfold metric_value, inc. rewrite lookup_insert_eq. reflexivity. Qed.

Lemma metric_value_dec label m : metric_value (dec label m) label = metric_value m label - 1.
Proof. unfold metric_value, dec. rewrite lookup_insert_eq. reflexivity. Qed.

Lemma metric_value_inc_ne label label' m :
  label <> label' -> metric_value (inc label m) label' = metric_value m label'.
Proof. intros H. unfold metric_value, inc. rewrite lookup_insert_ne by assumption. reflexivity. Qed.

(** What is left of a pass once the pop has returned a payload that
    decodes to a dict. *)
Lemma iteration_body_job w q payload w1 members :
  brpop env (QUEUE_NAME cfg) (BRPOP_TIMEOUT cfg) w = (Ok (Some (q, payload)), w1) ->
  json_loads env payload = Loaded (JObj members) ->
  iteration_body cfg env w =
  let job_id := dict_get members "job_id" (JStr "unknown") in
  try_finally
    (try_except (attempt cfg env job_id (JObj members)) (on_failure cfg env job_id))
    (cleanup env job_id)
    (snd (increment_inflight w1)).
Proof.
  intros Hpop Hloads. unfold iteration_body.
  rewrite (bind_ok _ _ _ _ _ Hpop). rewrite Hloads. reflexivity.
Qed.

End CalmWorker.

(** C1.  Once a pass of the loop has popped a job (a payload that decodes
    to a dict) and the pass comes to its end, the inflight gauge shows the
    value it showed before the pop.  Among the events of the pass there is
    exactly one increment of the gauge and, later, exactly one decrement;
    the pipeline call, the writes to the result store and the outcome
    counter all lie between the two.  This holds whatever the pipeline and
    the store do: success, a missing question, a failing pipeline, a
    refused write. *)
Theorem inflight_returns_to_baseline cfg env w q payload w1 members r w' :
  brpop env (QUEUE_NAME cfg) (BRPOP_TIMEOUT cfg) w = (Ok (Some (q, payload)), w1) ->
  json_loads env payload = Loaded (JObj members) ->
  iteration cfg env w = (r, w') ->
  r <> Hang ->
  inflight w' = inflight w /\
  exists before during after,
    trace w' = trace w ++ before ++ InflightInc :: during ++ InflightDec :: after /\
    forallb idle before = true /\
    forallb not_inflight during = true /\
    forallb idle after = true.
Proof.
  intros Hpop Hloads Hrun Hr.
  unfold iteration, try_except in Hrun.
  rewrite (iteration_body_job cfg env _ _ _ _ _ Hpop Hloads) in Hrun. cbv zeta in Hrun.
  set (job_id := dict_get members "job_id" (JStr "unknown")) in *.
  destruct (calm_pop cfg env w) as [Hg1 (before & Ht1 & Hb)]. rewrite Hpop in Hg1, Ht1. simpl in Hg1, Ht1.
  set (w2 := snd (increment_inflight w1)) in *.
  unfold try_finally in Hrun.
  pose proof (calm_attempt cfg env job_id (JObj members) w2) as [Hg3 (l3 & Ht3 & Hl3)].
  destruct (try_except (attempt cfg env job_id (JObj members)) (on_failure cfg env job_id) w2)
    as [ri w3]. simpl in Hg3, Ht3.
  assert (Hgauge : metric_value (dec "default" (agent_inflight w3)) "default" = inflight w).
  { rewrite metric_value_dec, Hg3. subst w2. simpl. rewrite metric_value_inc.
    unfold inflight. rewrite Hg1. lia. }
  assert (Htrace : forall tail,
    (trace w3 ++ [DurationObserved]) ++ InflightDec :: tail =
    trace w ++ before ++ InflightInc :: (l3 ++ [DurationObserved]) ++ InflightDec :: tail).
  { intros tail. rewrite Ht3. subst w2. simpl. rewrite Ht1.
    rewrite <- ?app_assoc. simpl. rewrite <- ?app_assoc. reflexivity. }
  assert (Hduring : forallb not_inflight (l3 ++ [DurationObserved]) = true).
  { rewrite forallb_app, Hl3. reflexivity. }
  destruct ri as [[] | e | ]; simpl in Hrun.
  - injection Hrun as <- <-. split; [exact Hgauge |].
    exists before, (l3 ++ [DurationObserved]), [Printed (LogJobCompleted (format_value env job_id))].
    split; [| auto]. simpl. rewrite <- (Htrace [_]). rewrite <- ?app_assoc. reflexivity.
  - match type of Hrun with on_loop_error env e ?w4 = _ =>
      destruct (calm_on_loop_error env e w4) as [Hg5 (l5 & Ht5 & Hl5)]
    end.
    rewrite Hrun in Hg5, Ht5. simpl in Hg5, Ht5.
    split; [unfold inflight; rewrite Hg5; exact Hgauge |].
    exists before, (l3 ++ [DurationObserved]),
           (Printed (LogJobCompleted (format_value env job_id)) :: l5).
    split; [| simpl; auto].
    rewrite Ht5. rewrite <- (Htrace (_ :: l5)). rewrite <- ?app_assoc. reflexivity.
  - injection Hrun as <- _. congruence.
Qed.

(** ** The steps of a run *)

Lemma steps_app l1 l2 : steps (l1 ++ l2) = steps l1 ++ steps l2.
Proof. apply List.filter_app. Qed.

Section Steps.
Context (cfg : config) (env : environment).

Lemma steps_signal_lines t : steps (signal_lines env t) = [].
Proof. unfold signal_lines. destruct (signal_during env t); reflexivity. Qed.

Lemma steps_deliver w : steps (trace (deliver env w)) = steps (trace w).
Proof. rewrite trace_deliver, steps_app, steps_signal_lines. apply app_nil_r. Qed.

Lemma same_metrics_deliver w : same_metrics w (deliver env w).
Proof.
  repeat split.
  - apply agent_inflight_deliver.
  - apply agent_jobs_processed_deliver.
  - apply agent_job_duration_deliver.
Qed.

(** A command the server takes. *)
Lemma send_accepted {A} c (exec : gmap string entry -> reply A) w a ks :
  redis_fault env (tick w) = None ->
  exec (keys w) = Done a ks ->
  send env c exec w = (Ok a, with_keys ks (deliver env (emit (Sent c) w))).
Proof.
  intros Hf Hx. unfold send. repeat (rewrite bind_unfold; simpl). rewrite Hf.
  unfold on_server. rewrite keys_deliver. simpl. rewrite Hx. reflexivity.
Qed.

(** A command that is refused. *)
Lemma send_refused {A} c (exec : gmap string entry -> reply A) w e :
  redis_fault env (tick w) = Some e ->
  send env c exec w = (Raise e, deliver env (emit (Sent c) w)).
Proof. intros Hf. unfold send. repeat (rewrite bind_unfold; simpl). rewrite Hf. reflexivity. Qed.

End Steps.

(** ** The result store *)

Lemma redis_hset_hash key mapping ks :
  holds_list ks key = false ->
  exists t, redis_hset key mapping ks =
    Done tt (<[key := Entry (RHash (list_to_map mapping ∪ fields_at ks key)) t]> ks).
Proof.
  unfold holds_list, redis_hset, fields_at. intros H.
  destruct (ks !! key) as [[[items | fields] t] |].
  - discriminate.
  - exists t. reflexivity.
  - exists None. rewrite (right_id_L ∅ (∪)). reflexivity.
Qed.

Lemma redis_hset_list key mapping ks :
  holds_list ks key = true -> redis_hset key mapping ks = WrongType.
Proof.
  unfold holds_list, redis_hset. intros H.
  destruct (ks !! key) as [[[items | fields] t] |]; try discriminate. reflexivity.
Qed.

Lemma redis_expire_set key seconds v t ks :
  0 < seconds ->
  redis_expire key seconds (<[key := Entry v t]> ks) =
  Done true (<[key := Entry v (Some seconds)]> ks).
Proof.
  intros H. unfold redis_expire. rewrite lookup_insert_eq.
  destruct (Z.leb_spec seconds 0); [lia |]. rewrite insert_insert_eq. reflexivity.
Qed.

Section Store.
Context (cfg : config) (env : environment).

(** A write of [mapping] under [key] that the server takes. *)
Lemma write_accepted key mapping w :
  redis_fault env (tick w) = None ->
  redis_fault env (S (tick w)) = None ->
  holds_list (keys w) key = false ->
  0 < RESULT_TTL cfg ->
  exists w',
    (hset env key mapping;; expire env key (RESULT_TTL cfg)) w = (Ok true, w') /\
    keys w' = record_written key mapping (RESULT_TTL cfg) (keys w) /\
    tick w' = S (S (tick w)) /\
    same_metrics w w' /\
    steps (trace w') =
      steps (trace w) ++ [Sent (HSET key mapping); Sent (EXPIRE key (RESULT_TTL cfg))].
Proof.
  intros Hf1 Hf2 Hk Httl.
  destruct (redis_hset_hash key mapping (keys w) Hk) as [t Hset].
  unfold hset, expire. rewrite bind_unfold.
  rewrite (send_accepted env _ _ _ _ _ Hf1 Hset).
  erewrite send_accepted.
  2: { simpl. rewrite tick_deliver. exact Hf2. }
  2: { simpl. apply redis_expire_set. exact Httl. }
  eexists. split; [reflexivity |]. unfold same_metrics. simpl.
  repeat split.
  - rewrite tick_deliver. simpl. rewrite tick_deliver. reflexivity.
  - rewrite agent_inflight_deliver. simpl. rewrite agent_inflight_deliver. reflexivity.
  - rewrite agent_jobs_processed_deliver. simpl. rewrite agent_jobs_processed_deliver. reflexivity.
  - rewrite agent_job_duration_deliver. simpl. rewrite agent_job_duration_deliver. reflexivity.
  - rewrite steps_deliver. simpl. rewrite steps_app, steps_deliver. simpl.
    rewrite steps_app. simpl. rewrite <- app_assoc. reflexivity.
Qed.

Lemma store_result_accepted job_id result w :
  redis_fault env (tick w) = None ->
  redis_fault env (S (tick w)) = None ->
  holds_list (keys w) (result_key cfg env job_id) = false ->
  0 < RESULT_TTL cfg ->
  exists w',
    store_result cfg env job_id result w = (Ok tt, w') /\
    keys w' = record_written (result_key cfg env job_id) (result_mapping env result)
                (RESULT_TTL cfg) (keys w) /\
    tick w' = S (S (tick w)) /\
    same_metrics w w' /\
    steps (trace w') =
      steps (trace w) ++ [Sent (HSET (result_key cfg env job_id) (result_mapping env result));
       Sent (EXPIRE (result_key cfg env job_id) (RESULT_TTL cfg));
       Printed (LogResultStored (result_key cfg env job_id))].
Proof.
  intros Hf1 Hf2 Hk Httl.
  destruct (write_accepted _ (result_mapping env result) w Hf1 Hf2 Hk Httl)
    as (w' & Hrun & Hkeys & Htick & Hm & Hc).
  unfold store_result. cbv zeta.
  rewrite bind_unfold in Hrun.
  rewrite bind_unfold.
  destruct (hset env (result_key cfg env job_id) (result_mapping env result) w)
    as [[[] | e | ] w0]; try discriminate.
  rewrite bind_unfold, Hrun. simpl.
  eexists. split; [reflexivity |]. simpl.
  repeat split; try assumption; try apply Hm.
  rewrite steps_app, Hc. simpl. rewrite <- app_assoc. reflexivity.
Qed.

Lemma store_error_accepted job_id error w :
  redis_fault env (tick w) = None ->
  redis_fault env (S (tick w)) = None ->
  holds_list (keys w) (result_key cfg env job_id) = false ->
  0 < RESULT_TTL cfg ->
  let mapping := error_mapping cfg error (utcnow_isoformat env (tick w)) in
  exists w',
    store_error cfg env job_id error w = (Ok tt, w') /\
    keys w' = record_written (result_key cfg env job_id) mapping (RESULT_TTL cfg) (keys w) /\
    tick w' = S (S (tick w)) /\
    same_metrics w w' /\
    steps (trace w') =
      steps (trace w) ++ [Sent (HSET (result_key cfg env job_id) mapping);
       Sent (EXPIRE (result_key cfg env job_id) (RESULT_TTL cfg));
       Printed (LogErrorStored (result_key cfg env job_id))].
Proof.
  intros Hf1 Hf2 Hk Httl mapping.
  destruct (write_accepted _ mapping w Hf1 Hf2 Hk Httl)
    as (w' & Hrun & Hkeys & Htick & Hm & Hc).
  unfold store_error. cbv zeta.
  rewrite bind_unfold in Hrun.
  rewrite bind_unfold. simpl. fold mapping. rewrite bind_unfold.
  destruct (hset env (result_key cfg env job_id) mapping w)
    as [[[] | e | ] w0]; try discriminate.
  rewrite bind_unfold, Hrun. simpl.
  eexists. split; [reflexivity |]. simpl.
  repeat split; try assumption; try apply Hm.
  rewrite steps_app, Hc. simpl. rewrite <- app_assoc. reflexivity.
Qed.

End Store.

Section Passes.
Context (cfg : config) (env : environment).

Lemma same_metrics_refl w : same_metrics w w.
Proof. repeat split. Qed.

Lemma same_metrics_trans w1 w2 w3 :
  same_metrics w1 w2 -> same_metrics w2 w3 -> same_metrics w1 w3.
Proof. unfold same_metrics. intros (? & ? & ?) (? & ? & ?). repeat split; congruence. Qed.

(** What a pop that returned a payload has done. *)
Lemma brpop_returned key timeout w q v w1 :
  brpop env key timeout w = (Ok (Some (q, v)), w1) ->
  q = key /\
  redis_fault env (tick w) = None /\
  redis_rpop key (keys w) = Done (Some v) (keys w1) /\
  tick w1 = S (tick w) /\
  same_metrics w w1 /\
  steps (trace w1) = steps (trace w) ++ [Sent (BRPOP key timeout)].
Proof.
  unfold brpop. repeat (rewrite bind_unfold; simpl).
  destruct (redis_fault env (tick w)); [discriminate |].
  destruct (timeout <? 0); [discriminate |].
  rewrite bind_unfold. unfold on_server. rewrite keys_deliver. simpl.
  destruct (redis_rpop key (keys w)) as [[v' |] ks |]; simpl.
  - intros [= -> -> <-]. simpl. rewrite tick_deliver, steps_deliver. simpl.
    rewrite steps_app.
    split; [reflexivity |]. split; [reflexivity |]. split; [reflexivity |].
    split; [reflexivity |]. split; [| reflexivity].
    apply (same_metrics_deliver env (emit _ w)).
  - destruct (timeout =? 0); discriminate.
  - discriminate.
Qed.

(** A pop the server takes, on a queue that has a payload. *)
Lemma brpop_oldest key timeout w v ks :
  redis_fault env (tick w) = None ->
  0 <= timeout ->
  redis_rpop key (keys w) = Done (Some v) ks ->
  brpop env key timeout w =
    (Ok (Some (key, v)), with_keys ks (deliver env (emit (Sent (BRPOP key timeout)) w))).
Proof.
  intros Hf Ht Hpop. unfold brpop. repeat (rewrite bind_unfold; simpl). rewrite Hf.
  destruct (Z.ltb_spec timeout 0); [lia |].
  rewrite bind_unfold. unfold on_server. rewrite keys_deliver. simpl. rewrite Hpop.
  reflexivity.
Qed.

(** A pop the server takes, on an empty queue, with a positive timeout. *)
Lemma brpop_timed_out key timeout w :
  redis_fault env (tick w) = None ->
  0 < timeout ->
  keys w !! key = None ->
  brpop env key timeout w =
    (Ok None, with_keys (keys w) (deliver env (emit (Sent (BRPOP key timeout)) w))).
Proof.
  intros Hf Ht Hk. unfold brpop. repeat (rewrite bind_unfold; simpl). rewrite Hf.
  destruct (Z.ltb_spec timeout 0); [lia |].
  rewrite bind_unfold. unfold on_server, redis_rpop. rewrite keys_deliver. simpl.
  rewrite Hk. destruct (Z.eqb_spec timeout 0); [lia |]. reflexivity.
Qed.

(** A pop leaves every other key as it is. *)
Lemma redis_rpop_other key ks r ks' k :
  redis_rpop key ks = Done r ks' -> k <> key -> ks' !! k = ks !! k.
Proof.
  unfold redis_rpop. intros H Hne.
  destruct (ks !! key) as [[[items | fields] t] |]; try discriminate.
  - destruct (last items); [| injection H as <- <-; reflexivity].
    destruct (removelast items); injection H as <- <-.
    + apply lookup_delete_ne. congruence.
    + apply lookup_insert_ne. congruence.
  - injection H as <- <-. reflexivity.
Qed.

Lemma record_job_error_run w :
  record_job_error w =
    (Ok tt, emit (ProcessedInc "err")
              (with_processed (inc "err" (agent_jobs_processed w)) w)).
Proof. reflexivity. Qed.

(** The loop goes round when the flag is down and the pass returns. *)
Lemma worker_loop_continues fuel w w' :
  _shutdown w = false ->
  iteration cfg env w = (Ok tt, w') ->
  worker_loop cfg env (S fuel) w = worker_loop cfg env fuel w'.
Proof. intros Hs Hrun. simpl. rewrite Hs, Hrun. reflexivity. Qed.

End Passes.

(** C3.  When the popped payload is not JSON, the pass counts one
    processed job under the label err, leaves the success counter and the
    inflight gauge alone, and does nothing else: after the pop it prints
    one line and bumps the counter, it sends the server no further command
    (so no result record is written and every key but the queue is as
    before), and it returns, so that the loop goes on to its next pass with the rest
    of the queue in place. *)
Theorem malformed_payload_is_discarded cfg env w q payload w1 msg :
  brpop env (QUEUE_NAME cfg) (BRPOP_TIMEOUT cfg) w = (Ok (Some (q, payload)), w1) ->
  json_loads env payload = JSONDecodeError msg ->
  exists w',
    iteration cfg env w = (Ok tt, w') /\
    processed w' "err" = processed w "err" + 1 /\
    processed w' "ok" = processed w "ok" /\
    inflight w' = inflight w /\
    steps (trace w') =
      steps (trace w) ++ [Sent (BRPOP (QUEUE_NAME cfg) (BRPOP_TIMEOUT cfg));
                          Printed (LogInvalidJSON msg);
                          ProcessedInc "err"] /\
    redis_rpop (QUEUE_NAME cfg) (keys w) = Done (Some payload) (keys w') /\
    (forall k, k <> QUEUE_NAME cfg -> keys w' !! k = keys w !! k) /\
    (_shutdown w = false ->
     forall fuel, worker_loop cfg env (S fuel) w = worker_loop cfg env fuel w').
Proof.
  intros Hpop Hloads.
  destruct (brpop_returned env _ _ _ _ _ _ Hpop)
    as (-> & Hf & Hrpop & Htick & (Hg & Hp & Hd) & Hc).
  assert (Hrun : iteration cfg env w =
    (Ok tt, emit (ProcessedInc "err")
              (with_processed (inc "err" (agent_jobs_processed w1))
                 (emit (Printed (LogInvalidJSON msg)) w1)))).
  { unfold iteration, try_except, iteration_body.
    rewrite (bind_ok _ _ _ _ _ Hpop). rewrite Hloads. reflexivity. }
  eexists. split; [exact Hrun |].
  unfold processed, inflight. simpl. rewrite Hg. repeat split.
  - rewrite metric_value_inc, Hp. reflexivity.
  - rewrite metric_value_inc_ne by discriminate. rewrite Hp. reflexivity.
  - rewrite !steps_app. simpl. rewrite Hc, <- !app_assoc. reflexivity.
  - exact Hrpop.
  - intros k Hk. exact (redis_rpop_other _ _ _ _ _ Hrpop Hk).
  - intros Hs fuel. exact (worker_loop_continues cfg env fuel _ _ Hs Hrun).
Qed.

Section Jobs.
Context (cfg : config) (env : environment).

Lemma truthy_nonempty s : s <> "" -> truthy (JStr s) = true.
Proof. intros H. simpl. apply negb_true_iff, String.eqb_neq, H. Qed.

Lemma answer_run question w :
  answer env question w =
    let w' := deliver env (emit (PipelineCalled question) w) in
    match rag_answer env (tick w) question with
    | Answered a sources => (Ok (a, sources), w')
    | PipelineRaised e => (Raise e, w')
    | PipelineHangs => (Hang, w')
    end.
Proof.
  unfold answer. repeat (rewrite bind_unfold; simpl).
  destruct (rag_answer env (tick w) question); reflexivity.
Qed.

(** A job without a usable question is refused before the pipeline. *)
Lemma process_job_refused members w :
  truthy (dict_get members "question" (JStr "")) = false ->
  process_job cfg env (JObj members) w =
    (Raise (Exn ValueError "Job missing 'question' field"), w).
Proof.
  intros H. unfold process_job. repeat (rewrite bind_unfold; simpl). rewrite H. reflexivity.
Qed.

(** A job whose question the pipeline answers. *)
Lemma process_job_answered members question a sources w :
  dict_get members "question" (JStr "") = JStr question ->
  question <> "" ->
  rag_answer env (tick w) (JStr question) = Answered a sources ->
  let job_id := dict_get members "job_id" (JStr "unknown") in
  let result :=
    {| res_job_id := job_id;
       res_status := "completed";
       res_question := JStr question;
       res_answer := a;
       res_sources := sources;
       res_worker_id := WORKER_ID cfg;
       res_completed_at := utcnow_isoformat env (S (tick w)) |} in
  exists w',
    process_job cfg env (JObj members) w = (Ok result, w') /\
    keys w' = keys w /\
    tick w' = S (tick w) /\
    same_metrics w w' /\
    steps (trace w') =
      steps (trace w) ++
      [Printed (LogProcessing (format_value env job_id) (substring 0 50 question));
       PipelineCalled (JStr question)].
Proof.
  intros Hq Hne Ha job_id result. unfold process_job.
  repeat (rewrite bind_unfold; simpl). rewrite Hq, (truthy_nonempty _ Hne). simpl.
  repeat (rewrite bind_unfold; simpl).
  rewrite answer_run. simpl. rewrite Ha. repeat (rewrite bind_unfold; simpl).
  rewrite tick_deliver. simpl.
  eexists. split; [reflexivity |].
  rewrite keys_deliver, tick_deliver, steps_deliver. simpl. rewrite !steps_app. simpl.
  split; [reflexivity |]. split; [reflexivity |]. split.
  - apply (same_metrics_deliver env (emit _ (emit _ w))).
  - rewrite <- app_assoc. reflexivity.
Qed.

(** A job whose question the pipeline fails on. *)
Lemma process_job_failed members question e w :
  dict_get members "question" (JStr "") = JStr question ->
  question <> "" ->
  rag_answer env (tick w) (JStr question) = PipelineRaised e ->
  let job_id := dict_get members "job_id" (JStr "unknown") in
  exists w',
    process_job cfg env (JObj members) w = (Raise e, w') /\
    keys w' = keys w /\
    tick w' = S (tick w) /\
    same_metrics w w' /\
    steps (trace w') =
      steps (trace w) ++
      [Printed (LogProcessing (format_value env job_id) (substring 0 50 question));
       PipelineCalled (JStr question)].
Proof.
  intros Hq Hne Ha job_id. unfold process_job.
  repeat (rewrite bind_unfold; simpl). rewrite Hq, (truthy_nonempty _ Hne). simpl.
  repeat (rewrite bind_unfold; simpl).
  rewrite answer_run. simpl. rewrite Ha.
  eexists. split; [reflexivity |].
  rewrite keys_deliver, tick_deliver, steps_deliver. simpl. rewrite !steps_app. simpl.
  split; [reflexivity |]. split; [reflexivity |]. split.
  - apply (same_metrics_deliver env (emit _ (emit _ w))).
  - rewrite <- app_assoc. reflexivity.
Qed.

(** The [except] suite when the store takes the error record. *)
Lemma on_failure_recorded job_id e w :
  redis_fault env (tick w) = None ->
  redis_fault env (S (tick w)) = None ->
  holds_list (keys w) (result_key cfg env job_id) = false ->
  0 < RESULT_TTL cfg ->
  let key := result_key cfg env job_id in
  let mapping := error_mapping cfg (exn_msg e) (utcnow_isoformat env (tick w)) in
  exists w',
    on_failure cfg env job_id e w = (Ok tt, w') /\
    keys w' = record_written key mapping (RESULT_TTL cfg) (keys w) /\
    tick w' = S (S (tick w)) /\
    agent_inflight w' = agent_inflight w /\
    agent_jobs_processed w' = inc "err" (agent_jobs_processed w) /\
    agent_job_duration w' = agent_job_duration w /\
    steps (trace w') =
      steps (trace w) ++
      [Printed (LogJobFailed (format_value env job_id) (exn_msg e));
       Sent (HSET key mapping);
       Sent (EXPIRE key (RESULT_TTL cfg));
       Printed (LogErrorStored key);
       ProcessedInc "err"].
Proof.
  intros Hf1 Hf2 Hk Httl key mapping. unfold on_failure.
  rewrite bind_unfold. simpl.
  destruct (store_error_accepted cfg env job_id (exn_msg e)
              (emit (Printed (LogJobFailed (format_value env job_id) (exn_msg e))) w)
              Hf1 Hf2 Hk Httl) as (w' & Hrun & Hkeys & Htick & (Hg & Hp & Hd) & Hs).
  rewrite bind_unfold, Hrun. simpl.
  eexists. split; [reflexivity |]. simpl.
  rewrite Hg, Hp, Hd, !steps_app, Hs. simpl. rewrite !steps_app. simpl.
  repeat split; try assumption.
  rewrite <- !app_assoc. reflexivity.
Qed.

Lemma cleanup_run job_id w : cleanup env job_id w = (Ok tt, finish env job_id w).
Proof. reflexivity. Qed.

Lemma steps_finish job_id w :
  steps (trace (finish env job_id w)) =
    steps (trace w) ++
    [DurationObserved; InflightDec; Printed (LogJobCompleted (format_value env job_id))].
Proof. unfold finish. simpl. rewrite !steps_app. simpl. rewrite <- !app_assoc. reflexivity. Qed.

(** A pass that has popped a dict, in terms of what its inner [try]
    does. *)
Lemma iteration_job w q payload w1 members :
  brpop env (QUEUE_NAME cfg) (BRPOP_TIMEOUT cfg) w = (Ok (Some (q, payload)), w1) ->
  json_loads env payload = Loaded (JObj members) ->
  let job_id := dict_get members "job_id" (JStr "unknown") in
  iteration cfg env w =
    match try_except (attempt cfg env job_id (JObj members)) (on_failure cfg env job_id)
            (snd (increment_inflight w1)) with
    | (Ok _, w3) => (Ok tt, finish env job_id w3)
    | (Raise e, w3) => on_loop_error env e (finish env job_id w3)
    | (Hang, w3) => (Hang, w3)
    end.
Proof.
  intros Hpop Hloads job_id. unfold iteration. unfold try_except at 1.
  rewrite (iteration_body_job cfg env _ _ _ _ _ Hpop Hloads). cbv zeta. fold job_id.
  unfold try_finally.
  destruct (try_except (attempt cfg env job_id (JObj members)) (on_failure cfg env job_id)
              (snd (increment_inflight w1))) as [[[] | e | ] w3]; reflexivity.
Qed.

End Jobs.

(** ** Records *)

Lemma record_written_lookup key mapping seconds ks :
  record_written key mapping seconds ks !! key =
    Some (Entry (RHash (list_to_map mapping ∪ fields_at ks key)) (Some seconds)).
Proof. apply lookup_insert_eq. Qed.

Lemma record_written_other key mapping seconds ks k :
  k <> key -> record_written key mapping seconds ks !! k = ks !! k.
Proof. intros H. apply lookup_insert_ne. congruence. Qed.

Lemma fields_at_record_written key mapping seconds ks :
  fields_at (record_written key mapping seconds ks) key =
    list_to_map mapping ∪ fields_at ks key.
Proof. unfold fields_at at 1. rewrite record_written_lookup. reflexivity. Qed.

(** HSET overwrites the fields it names and keeps the others. *)
Lemma written_field (mapping : list (string * string)) (old : gmap string string) field v :
  (list_to_map mapping : gmap string string) !! field = Some v ->
  (list_to_map mapping ∪ old) !! field = Some v.
Proof. intros H. apply lookup_union_Some_l, H. Qed.

Lemma kept_field (mapping : list (string * string)) (old : gmap string string) field :
  (list_to_map mapping : gmap string string) !! field = None ->
  (list_to_map mapping ∪ old) !! field = old !! field.
Proof. intros H. apply lookup_union_r, H. Qed.

Lemma result_mapping_fields env result :
  let m : gmap string string := list_to_map (result_mapping env result) in
  m !! "status" = Some (res_status result) /\
  m !! "answer" = Some (res_answer result) /\
  m !! "sources" = Some (json_dumps env (res_sources result)) /\
  m !! "worker_id" = Some (res_worker_id result) /\
  m !! "completed_at" = Some (res_completed_at result).
Proof. repeat split. Qed.

Lemma error_mapping_fields cfg error now :
  let m : gmap string string := list_to_map (error_mapping cfg error now) in
  m !! "status" = Some "error" /\
  m !! "error" = Some error /\
  m !! "worker_id" = Some (WORKER_ID cfg) /\
  m !! "completed_at" = Some now.
Proof. repeat split. Qed.

Section Paths.
Context (cfg : config) (env : environment).

(** The pass of a job that [process_job] refuses or the pipeline fails,
    when the store takes the error record: [w2] is the world in which the
    [except] suite starts. *)
Lemma iteration_error_recorded w q payload w1 members e w2 added :
  brpop env (QUEUE_NAME cfg) (BRPOP_TIMEOUT cfg) w = (Ok (Some (q, payload)), w1) ->
  json_loads env payload = Loaded (JObj members) ->
  process_job cfg env (JObj members) (snd (increment_inflight w1)) = (Raise e, w2) ->
  keys w2 = keys w1 ->
  same_metrics (snd (increment_inflight w1)) w2 ->
  steps (trace w2) = steps (trace (snd (increment_inflight w1))) ++ added ->
  redis_fault env (tick w2) = None ->
  redis_fault env (S (tick w2)) = None ->
  let job_id := dict_get members "job_id" (JStr "unknown") in
  let key := result_key cfg env job_id in
  let mapping := error_mapping cfg (exn_msg e) (utcnow_isoformat env (tick w2)) in
  holds_list (keys w1) key = false ->
  0 < RESULT_TTL cfg ->
  exists w',
    iteration cfg env w = (Ok tt, w') /\
    keys w' = record_written key mapping (RESULT_TTL cfg) (keys w1) /\
    processed w' "err" = processed w "err" + 1 /\
    processed w' "ok" = processed w "ok" /\
    inflight w' = inflight w /\
    steps (trace w') =
      steps (trace w) ++
      [Sent (BRPOP (QUEUE_NAME cfg) (BRPOP_TIMEOUT cfg)); InflightInc] ++
      added ++
      [Printed (LogJobFailed (format_value env job_id) (exn_msg e));
       Sent (HSET key mapping);
       Sent (EXPIRE key (RESULT_TTL cfg));
       Printed (LogErrorStored key);
       ProcessedInc "err";
       DurationObserved;
       InflightDec;
       Printed (LogJobCompleted (format_value env job_id))].
Proof.
  intros Hpop Hloads Hjob Hkeys (Hg2 & Hp2 & Hd2) Hs2 Hf1 Hf2 job_id key mapping Hk Httl.
  destruct (brpop_returned env _ _ _ _ _ _ Hpop)
    as (-> & _ & _ & _ & (Hg1 & Hp1 & Hd1) & Hs1).
  rewrite <- Hkeys in Hk.
  destruct (on_failure_recorded cfg env job_id e w2 Hf1 Hf2 Hk Httl)
    as (w3 & Hrun & Hkeys3 & _ & Hg3 & Hp3 & _ & Hs3).
  rewrite (iteration_job cfg env _ _ _ _ _ Hpop Hloads). cbv zeta. fold job_id.
  unfold try_except, attempt. rewrite (bind_raise _ _ _ _ _ Hjob), Hrun.
  eexists. split; [reflexivity |].
  unfold processed, inflight, finish. simpl.
  rewrite Hg3, Hp3, Hg2, Hp2. simpl.
  rewrite metric_value_dec, metric_value_inc, metric_value_inc.
  rewrite (metric_value_inc_ne "err" "ok") by discriminate.
  rewrite Hg1, Hp1.
  split; [rewrite Hkeys3, Hkeys; reflexivity |].
  split; [reflexivity |]. split; [reflexivity |]. split; [lia |].
  rewrite !steps_app, Hs3, Hs2. simpl. rewrite steps_app, Hs1. simpl.
  rewrite <- !app_assoc. reflexivity.
Qed.

(** The pass of a job the pipeline answers, when the store takes the
    record. *)
Lemma iteration_completed w q payload w1 members question a sources :
  brpop env (QUEUE_NAME cfg) (BRPOP_TIMEOUT cfg) w = (Ok (Some (q, payload)), w1) ->
  json_loads env payload = Loaded (JObj members) ->
  dict_get members "question" (JStr "") = JStr question ->
  question <> "" ->
  rag_answer env (tick w1) (JStr question) = Answered a sources ->
  redis_fault env (S (tick w1)) = None ->
  redis_fault env (S (S (tick w1))) = None ->
  let job_id := dict_get members "job_id" (JStr "unknown") in
  let key := result_key cfg env job_id in
  let result :=
    {| res_job_id := job_id;
       res_status := "completed";
       res_question := JStr question;
       res_answer := a;
       res_sources := sources;
       res_worker_id := WORKER_ID cfg;
       res_completed_at := utcnow_isoformat env (S (tick w1)) |} in
  holds_list (keys w1) key = false ->
  0 < RESULT_TTL cfg ->
  exists w',
    iteration cfg env w = (Ok tt, w') /\
    keys w' = record_written key (result_mapping env result) (RESULT_TTL cfg) (keys w1) /\
    processed w' "ok" = processed w "ok" + 1 /\
    processed w' "err" = processed w "err" /\
    inflight w' = inflight w /\
    steps (trace w') =
      steps (trace w) ++
      [Sent (BRPOP (QUEUE_NAME cfg) (BRPOP_TIMEOUT cfg));
       InflightInc;
       Printed (LogProcessing (format_value env job_id) (substring 0 50 question));
       PipelineCalled (JStr question);
       Sent (HSET key (result_mapping env result));
       Sent (EXPIRE key (RESULT_TTL cfg));
       Printed (LogResultStored key);
       ProcessedInc "ok";
       DurationObserved;
       InflightDec;
       Printed (LogJobCompleted (format_value env job_id))].
Proof.
  intros Hpop Hloads Hq Hne Ha Hf1 Hf2 job_id key result Hk Httl.
  destruct (brpop_returned env _ _ _ _ _ _ Hpop)
    as (-> & _ & _ & _ & (Hg1 & Hp1 & Hd1) & Hs1).
  destruct (process_job_answered cfg env members question a sources
              (snd (increment_inflight w1)) Hq Hne Ha)
    as (w2 & Hjob & Hkeys2 & Htick2 & (Hg2 & Hp2 & Hd2) & Hs2).
  simpl in Hjob, Hkeys2, Htick2, Hg2, Hp2, Hs2. fold job_id in Hjob, Hs2. fold result in Hjob.
  rewrite <- Htick2 in Hf1, Hf2. rewrite <- Hkeys2 in Hk.
  destruct (store_result_accepted cfg env job_id result w2 Hf1 Hf2 Hk Httl)
    as (w3 & Hrun & Hkeys3 & _ & (Hg3 & Hp3 & _) & Hs3).
  rewrite (iteration_job cfg env _ _ _ _ _ Hpop Hloads). cbv zeta. fold job_id.
  unfold try_except, attempt. rewrite (bind_ok _ _ _ _ _ Hjob).
  rewrite (bind_ok _ _ _ _ _ Hrun). simpl.
  eexists. split; [reflexivity |].
  unfold processed, inflight, finish. simpl.
  rewrite Hg3, Hp3, Hg2, Hp2.
  rewrite metric_value_dec, metric_value_inc, metric_value_inc.
  rewrite (metric_value_inc_ne "ok" "err") by discriminate.
  rewrite Hg1, Hp1.
  split; [rewrite Hkeys3, Hkeys2; reflexivity |].
  split; [reflexivity |]. split; [reflexivity |]. split; [lia |].
  rewrite !steps_app, Hs3, Hs2. simpl. rewrite steps_app, Hs1. simpl.
  rewrite <- !app_assoc. reflexivity.
Qed.

End Paths.

Lemma dict_get_found members k default v :
  assoc_get members k = Some v -> dict_get members k default = v.
Proof. unfold dict_get. intros ->. reflexivity. Qed.

Lemma dict_get_missing members k default :
  assoc_get members k = None -> dict_get members k default = default.
Proof. unfold dict_get. intros ->. reflexivity. Qed.

(** C4.  A job that decodes to a dict but has no question, or an empty
    one, is a failure of that job and not a parse failure: provided the
    store takes the write, the pass stores under the key of the job a
    record whose status is error (so not completed) and whose error field
    is the message of the validation, counts one processed job under err
    and none under ok, and never calls the pipeline. *)
Theorem missing_question_is_a_job_error cfg env w q payload w1 members :
  brpop env (QUEUE_NAME cfg) (BRPOP_TIMEOUT cfg) w = (Ok (Some (q, payload)), w1) ->
  json_loads env payload = Loaded (JObj members) ->
  assoc_get members "question" = None \/ assoc_get members "question" = Some (JStr "") ->
  redis_fault env (tick w1) = None ->
  redis_fault env (S (tick w1)) = None ->
  let job_id := dict_get members "job_id" (JStr "unknown") in
  let key := RESULT_PREFIX cfg +:+ format_value env job_id in
  let message := "Job missing 'question' field" in
  let mapping := error_mapping cfg message (utcnow_isoformat env (tick w1)) in
  holds_list (keys w1) key = false ->
  0 < RESULT_TTL cfg ->
  exists w' fields,
    iteration cfg env w = (Ok tt, w') /\
    keys w' !! key = Some (Entry (RHash fields) (Some (RESULT_TTL cfg))) /\
    fields !! "status" = Some "error" /\
    fields !! "error" = Some message /\
    fields !! "worker_id" = Some (WORKER_ID cfg) /\
    fields !! "completed_at" = Some (utcnow_isoformat env (tick w1)) /\
    processed w' "err" = processed w "err" + 1 /\
    processed w' "ok" = processed w "ok" /\
    steps (trace w') =
      steps (trace w) ++
      [Sent (BRPOP (QUEUE_NAME cfg) (BRPOP_TIMEOUT cfg));
       InflightInc;
       Printed (LogJobFailed (format_value env job_id) message);
       Sent (HSET key mapping);
       Sent (EXPIRE key (RESULT_TTL cfg));
       Printed (LogErrorStored key);
       ProcessedInc "err";
       DurationObserved;
       InflightDec;
       Printed (LogJobCompleted (format_value env job_id))].
Proof.
  intros Hpop Hloads Hq Hf1 Hf2 job_id key message mapping Hk Httl.
  assert (Hfalsy : truthy (dict_get members "question" (JStr "")) = false).
  { destruct Hq as [Hq | Hq].
    - rewrite (dict_get_missing _ _ _ Hq). reflexivity.
    - rewrite (dict_get_found _ _ _ _ Hq). reflexivity. }
  destruct (iteration_error_recorded cfg env w q payload w1 members
              (Exn ValueError message) (snd (increment_inflight w1)) []
              Hpop Hloads (process_job_refused cfg env _ _ Hfalsy) eq_refl
              (same_metrics_refl _) (eq_sym (app_nil_r _)) Hf1 Hf2 Hk Httl)
    as (w' & Hrun & Hkeys & Herr & Hok & _ & Hsteps).
  destruct (error_mapping_fields cfg message (utcnow_isoformat env (tick w1)))
    as (Hm1 & Hm2 & Hm3 & Hm4).
  exists w', (list_to_map mapping ∪ fields_at (keys w1) key).
  split; [exact Hrun |].
  split; [rewrite Hkeys; apply record_written_lookup |].
  split; [apply written_field, Hm1 |].
  split; [apply written_field, Hm2 |].
  split; [apply written_field, Hm3 |].
  split; [apply written_field, Hm4 |].
  split; [exact Herr |]. split; [exact Hok |]. exact Hsteps.
Qed.

(** C6.  A job with an id and a non-empty question whose pipeline call
    returns, on a store that takes the write: the pass stores under
    RESULT_PREFIX followed by the id a record with status completed, the
    answer of the pipeline, the JSON text of its sources, the identity of
    the worker and the time of completion, and the key expires after
    RESULT_TTL seconds, 3600 by default; the HSET and the EXPIRE are the
    two commands of the one [store_result] call, sent one after the
    other.  The job is counted once under ok. *)
Theorem completed_job_is_recorded cfg env w q payload w1 members id question a sources :
  brpop env (QUEUE_NAME cfg) (BRPOP_TIMEOUT cfg) w = (Ok (Some (q, payload)), w1) ->
  json_loads env payload = Loaded (JObj members) ->
  assoc_get members "job_id" = Some (JStr id) ->
  assoc_get members "question" = Some (JStr question) ->
  question <> "" ->
  rag_answer env (tick w1) (JStr question) = Answered a sources ->
  redis_fault env (S (tick w1)) = None ->
  redis_fault env (S (S (tick w1))) = None ->
  let key := RESULT_PREFIX cfg +:+ id in
  let now := utcnow_isoformat env (S (tick w1)) in
  let mapping :=
    [("status", "completed"); ("answer", a); ("sources", json_dumps env sources);
     ("worker_id", WORKER_ID cfg); ("completed_at", now)] in
  holds_list (keys w1) key = false ->
  0 < RESULT_TTL cfg ->
  exists w' fields,
    iteration cfg env w = (Ok tt, w') /\
    keys w' !! key = Some (Entry (RHash fields) (Some (RESULT_TTL cfg))) /\
    fields !! "status" = Some "completed" /\
    fields !! "answer" = Some a /\
    fields !! "sources" = Some (json_dumps env sources) /\
    fields !! "worker_id" = Some (WORKER_ID cfg) /\
    fields !! "completed_at" = Some now /\
    (keys w1 !! key = None -> fields = list_to_map mapping) /\
    processed w' "ok" = processed w "ok" + 1 /\
    processed w' "err" = processed w "err" /\
    steps (trace w') =
      steps (trace w) ++
      [Sent (BRPOP (QUEUE_NAME cfg) (BRPOP_TIMEOUT cfg));
       InflightInc;
       Printed (LogProcessing id (substring 0 50 question));
       PipelineCalled (JStr question);
       Sent (HSET key mapping);
       Sent (EXPIRE key (RESULT_TTL cfg));
       Printed (LogResultStored key);
       ProcessedInc "ok";
       DurationObserved;
       InflightDec;
       Printed (LogJobCompleted id)] /\
    RESULT_TTL default_config = 3600.
Proof.
  intros Hpop Hloads Hid Hq Hne Ha Hf1 Hf2 key now mapping Hk Httl.
  pose proof (dict_get_found _ _ (JStr "") _ Hq) as Hq'.
  pose proof (dict_get_found _ _ (JStr "unknown") _ Hid) as Hid'.
  destruct (iteration_completed cfg env w q payload w1 members question a sources
              Hpop Hloads Hq' Hne Ha Hf1 Hf2) as (w' & Hrun & Hkeys & Hok & Herr & _ & Hsteps).
  { unfold result_key. rewrite Hid'. exact Hk. }
  { exact Httl. }
  unfold result_key in Hkeys, Hsteps. rewrite Hid' in Hkeys, Hsteps. simpl in Hkeys, Hsteps.
  fold key in Hkeys, Hsteps. fold now in Hkeys, Hsteps.
  change (result_mapping env _) with mapping in Hkeys, Hsteps.
  exists w', (list_to_map mapping ∪ fields_at (keys w1) key).
  split; [exact Hrun |].
  split; [rewrite Hkeys; apply record_written_lookup |].
  split; [apply written_field; reflexivity |].
  split; [apply written_field; reflexivity |].
  split; [apply written_field; reflexivity |].
  split; [apply written_field; reflexivity |].
  split; [apply written_field; reflexivity |].
  split.
  { intros Hnone. unfold fields_at. rewrite Hnone. apply (right_id_L ∅ (∪)). }
  split; [exact Hok |]. split; [exact Herr |]. split; [exact Hsteps | reflexivity].
Qed.

(** C10.  A job that decodes to a dict without a job_id and with a
    non-empty question is processed under the id unknown: whether the
    pipeline answers or fails, the commands of the pass after its pop are
    one HSET and one EXPIRE on the key RESULT_PREFIX followed by unknown,
    and no other key changes.
    Every such job therefore writes the same key: each field the later
    write names holds the later value, whatever an earlier job left
    there, and the fields it does not name stay as the earlier job left
    them. *)
Theorem jobs_without_id_share_one_key cfg env w q payload w1 members question :
  brpop env (QUEUE_NAME cfg) (BRPOP_TIMEOUT cfg) w = (Ok (Some (q, payload)), w1) ->
  json_loads env payload = Loaded (JObj members) ->
  assoc_get members "job_id" = None ->
  assoc_get members "question" = Some (JStr question) ->
  question <> "" ->
  rag_answer env (tick w1) (JStr question) <> PipelineHangs ->
  redis_fault env (S (tick w1)) = None ->
  redis_fault env (S (S (tick w1))) = None ->
  let key := RESULT_PREFIX cfg +:+ "unknown" in
  let now := utcnow_isoformat env (S (tick w1)) in
  holds_list (keys w1) key = false ->
  0 < RESULT_TTL cfg ->
  exists w' mapping,
    iteration cfg env w = (Ok tt, w') /\
    match rag_answer env (tick w1) (JStr question) with
    | Answered a sources =>
        mapping = [("status", "completed"); ("answer", a);
                   ("sources", json_dumps env sources);
                   ("worker_id", WORKER_ID cfg); ("completed_at", now)]
    | PipelineRaised e =>
        mapping = [("status", "error"); ("error", exn_msg e);
                   ("worker_id", WORKER_ID cfg); ("completed_at", now)]
    | PipelineHangs => False
    end /\
    (exists l,
       steps (trace w') = steps (trace w) ++ l /\
       commands l = [BRPOP (QUEUE_NAME cfg) (BRPOP_TIMEOUT cfg);
                     HSET key mapping;
                     EXPIRE key (RESULT_TTL cfg)]) /\
    keys w' !! key =
      Some (Entry (RHash (list_to_map mapping ∪ fields_at (keys w1) key))
                  (Some (RESULT_TTL cfg))) /\
    (forall field v,
       (list_to_map mapping : gmap string string) !! field = Some v ->
       fields_at (keys w') key !! field = Some v) /\
    (forall field,
       (list_to_map mapping : gmap string string) !! field = None ->
       fields_at (keys w') key !! field = fields_at (keys w1) key !! field) /\
    (forall k, k <> key -> keys w' !! k = keys w1 !! k).
Proof.
  intros Hpop Hloads Hid Hq Hne Hret Hf1 Hf2 key now Hk Httl.
  pose proof (dict_get_found _ _ (JStr "") _ Hq) as Hq'.
  pose proof (dict_get_missing _ _ (JStr "unknown") Hid) as Hid'.
  assert (Hkey : result_key cfg env (dict_get members "job_id" (JStr "unknown")) = key).
  { unfold result_key. rewrite Hid'. reflexivity. }
  assert (Hfinal : forall w' mapping,
    keys w' = record_written key mapping (RESULT_TTL cfg) (keys w1) ->
    (exists l,
       steps (trace w') = steps (trace w) ++ l /\
       commands l = [BRPOP (QUEUE_NAME cfg) (BRPOP_TIMEOUT cfg);
                     HSET key mapping;
                     EXPIRE key (RESULT_TTL cfg)]) ->
    (exists l,
       steps (trace w') = steps (trace w) ++ l /\
       commands l = [BRPOP (QUEUE_NAME cfg) (BRPOP_TIMEOUT cfg);
                     HSET key mapping;
                     EXPIRE key (RESULT_TTL cfg)]) /\
    keys w' !! key =
      Some (Entry (RHash (list_to_map mapping ∪ fields_at (keys w1) key))
                  (Some (RESULT_TTL cfg))) /\
    (forall field v,
       (list_to_map mapping : gmap string string) !! field = Some v ->
       fields_at (keys w') key !! field = Some v) /\
    (forall field,
       (list_to_map mapping : gmap string string) !! field = None ->
       fields_at (keys w') key !! field = fields_at (keys w1) key !! field) /\
    (forall k, k <> key -> keys w' !! k = keys w1 !! k)).
  { intros w' mapping Hkeys Hcommands. rewrite Hkeys.
    split; [exact Hcommands |].
    split; [apply record_written_lookup |].
    rewrite fields_at_record_written.
    split; [intros field v; apply written_field |].
    split; [intros field; apply kept_field |].
    intros k; apply record_written_other. }
  destruct (rag_answer env (tick w1) (JStr question)) as [a sources | e |] eqn:Ha.
  - destruct (iteration_completed cfg env w q payload w1 members question a sources
                Hpop Hloads Hq' Hne Ha Hf1 Hf2) as (w' & Hrun & Hkeys & _ & _ & _ & Hsteps).
    { rewrite Hkey. exact Hk. }
    { exact Httl. }
    rewrite Hkey in Hkeys, Hsteps.
    eexists w', _. split; [exact Hrun |]. split; [reflexivity |].
    apply Hfinal; [exact Hkeys |].
    eexists. split; [exact Hsteps |]. reflexivity.
  - destruct (process_job_failed cfg env members question e
                (snd (increment_inflight w1)) Hq' Hne Ha)
      as (w2 & Hjob & Hkeys2 & Htick2 & Hm2 & Hs2).
    simpl in Hkeys2, Htick2. rewrite <- Htick2 in Hf1, Hf2.
    destruct (iteration_error_recorded cfg env w q payload w1 members e w2 _
                Hpop Hloads Hjob Hkeys2 Hm2 Hs2 Hf1 Hf2)
      as (w' & Hrun & Hkeys & _ & _ & _ & Hsteps).
    { rewrite Hkey. exact Hk. }
    { exact Httl. }
    rewrite Hkey in Hkeys, Hsteps. rewrite Htick2 in Hkeys, Hsteps.
    eexists w', _. split; [exact Hrun |]. split; [reflexivity |].
    apply Hfinal; [exact Hkeys |].
    eexists. split; [exact Hsteps |]. reflexivity.
  - congruence.
Qed.

(** ** Two writes to one job *)

Section Writes.
Context (cfg : config) (env : environment).

Lemma send_returned {A} c (exec : gmap string entry -> reply A) w a w' :
  send env c exec w = (Ok a, w') ->
  redis_fault env (tick w) = None /\
  exists ks, exec (keys w) = Done a ks.
Proof.
  unfold send. repeat (rewrite bind_unfold; simpl).
  destruct (redis_fault env (tick w)); [discriminate |].
  unfold on_server. rewrite keys_deliver. simpl.
  destruct (exec (keys w)) as [a' ks |]; [| discriminate].
  intros [= -> <-]. split; [reflexivity |]. exists ks. reflexivity.
Qed.

(** A write that returned was taken by the server, command by command. *)
Lemma write_returned key mapping w b w' :
  (hset env key mapping;; expire env key (RESULT_TTL cfg)) w = (Ok b, w') ->
  redis_fault env (tick w) = None /\
  redis_fault env (S (tick w)) = None /\
  holds_list (keys w) key = false.
Proof.
  rewrite bind_unfold. unfold hset, expire.
  destruct (send env (HSET key mapping) (redis_hset key mapping) w)
    as [[[] | e | ] w0] eqn:Hset; try discriminate.
  intros Hexp.
  destruct (send_returned _ _ _ _ _ Hset) as (Hf1 & ks & Hx).
  destruct (send_returned _ _ _ _ _ Hexp) as (Hf2 & _).
  assert (Hlist : holds_list (keys w) key = false).
  { destruct (holds_list (keys w) key) eqn:Hl; [| reflexivity].
    rewrite (redis_hset_list _ _ _ Hl) in Hx. discriminate. }
  destruct (redis_hset_hash key mapping (keys w) Hlist) as [t Hx'].
  rewrite (send_accepted env _ _ _ _ _ Hf1 Hx') in Hset. injection Hset as <-.
  simpl in Hf2. rewrite tick_deliver in Hf2. simpl in Hf2. auto.
Qed.

Lemma store_unfold job_id wr w :
  store cfg env job_id wr w =
    match (hset env (result_key cfg env job_id) (mapping_of cfg env wr (tick w));;
           expire env (result_key cfg env job_id) (RESULT_TTL cfg)) w with
    | (Ok _, w') =>
        (Ok tt, emit (Printed (match wr with
                               | Success _ => LogResultStored (result_key cfg env job_id)
                               | Failure _ => LogErrorStored (result_key cfg env job_id)
                               end)) w')
    | (Raise e, w') => (Raise e, w')
    | (Hang, w') => (Hang, w')
    end.
Proof.
  destruct wr as [result | error]; simpl.
  - unfold store_result. cbv zeta. rewrite !bind_unfold.
    destruct (hset env _ _ w) as [[[] | ? | ] ?]; try reflexivity.
    all: rewrite ?bind_unfold; destruct (expire env _ _ _) as [[? | ? | ] ?]; reflexivity.
  - unfold store_error. cbv zeta. rewrite !bind_unfold. simpl. rewrite !bind_unfold.
    destruct (hset env _ _ w) as [[[] | ? | ] ?]; try reflexivity.
    all: rewrite ?bind_unfold; destruct (expire env _ _ _) as [[? | ? | ] ?]; reflexivity.
Qed.

(** What a write that returned has left. *)
Lemma store_returned job_id wr w w' :
  0 < RESULT_TTL cfg ->
  store cfg env job_id wr w = (Ok tt, w') ->
  redis_fault env (tick w) = None /\
  redis_fault env (S (tick w)) = None /\
  holds_list (keys w) (result_key cfg env job_id) = false /\
  keys w' = record_written (result_key cfg env job_id) (mapping_of cfg env wr (tick w))
              (RESULT_TTL cfg) (keys w) /\
  tick w' = S (S (tick w)).
Proof.
  intros Httl. rewrite store_unfold.
  destruct ((hset env _ _;; expire env _ _) w) as [[b | e | ] w0] eqn:Hrun; try discriminate.
  intros [= <-].
  destruct (write_returned _ _ _ _ _ Hrun) as (Hf1 & Hf2 & Hk).
  destruct (write_accepted cfg env _ (mapping_of cfg env wr (tick w)) w Hf1 Hf2 Hk Httl)
    as (w0' & Hrun' & Hkeys & Htick & _).
  rewrite Hrun in Hrun'. injection Hrun' as -> ->. simpl. auto.
Qed.

(** A write the server takes. *)
Lemma store_taken job_id wr w :
  redis_fault env (tick w) = None ->
  redis_fault env (S (tick w)) = None ->
  holds_list (keys w) (result_key cfg env job_id) = false ->
  0 < RESULT_TTL cfg ->
  exists w', store cfg env job_id wr w = (Ok tt, w').
Proof.
  intros Hf1 Hf2 Hk Httl. rewrite store_unfold.
  destruct (write_accepted cfg env _ (mapping_of cfg env wr (tick w)) w Hf1 Hf2 Hk Httl)
    as (w0' & Hrun' & _).
  rewrite Hrun'. eexists. reflexivity.
Qed.

Lemma holds_list_record_written key mapping seconds ks :
  holds_list (record_written key mapping seconds ks) key = false.
Proof. unfold holds_list. rewrite record_written_lookup. reflexivity. Qed.

Lemma record_written_twice key m1 m2 seconds ks :
  record_written key m2 seconds (record_written key m1 seconds ks) =
  <[key := Entry (RHash (list_to_map m2 ∪ (list_to_map m1 ∪ fields_at ks key)))
                 (Some seconds)]> ks.
Proof.
  unfold record_written at 1. rewrite fields_at_record_written.
  unfold record_written. apply insert_insert_eq.
Qed.

(** Fields that the second mapping names again are gone for good. *)
Lemma union_absorb (m1 m2 old : gmap string string) :
  (forall field, is_Some (m1 !! field) -> is_Some (m2 !! field)) ->
  m2 ∪ (m1 ∪ old) = m2 ∪ old.
Proof.
  intros Hsub. apply map_eq. intros field.
  rewrite !lookup_union.
  destruct (m2 !! field) as [v2 |] eqn:H2; simpl.
  - destruct (m1 !! field), (old !! field); reflexivity.
  - destruct (m1 !! field) as [v1 |] eqn:H1.
    + destruct (Hsub field) as [v Hv]; [eauto | congruence].
    + destruct (old !! field); reflexivity.
Qed.

Lemma same_kind_fields first second t1 t2 field :
  same_kind first second = true ->
  is_Some ((list_to_map (mapping_of cfg env first t1) : gmap string string) !! field) ->
  is_Some ((list_to_map (mapping_of cfg env second t2) : gmap string string) !! field).
Proof.
  destruct first, second; try discriminate; intros _; simpl.
  all: rewrite !lookup_insert; repeat case_decide; eauto.
Qed.

End Writes.

(** C2, as amended.  Two writes for one job that the store takes, in any
    order and of any kind, with a positive retention time: after the
    second, every field it names holds its value and the key expires after
    RESULT_TTL seconds, but the fields that only the first write named are
    still there, since HSET merges into the hash it finds.  The server
    equals the one the second write alone would have left exactly when the
    second names every field of the first, which is the case for two
    writes of the same kind (two results or two errors). *)
Theorem second_write_overwrites_named_fields cfg env job_id first second w w1 w2 :
  0 < RESULT_TTL cfg ->
  store cfg env job_id first w = (Ok tt, w1) ->
  store cfg env job_id second w1 = (Ok tt, w2) ->
  let key := result_key cfg env job_id in
  let m1 : gmap string string := list_to_map (mapping_of cfg env first (tick w)) in
  let m2 : gmap string string := list_to_map (mapping_of cfg env second (tick w1)) in
  keys w2 !! key =
    Some (Entry (RHash (m2 ∪ (m1 ∪ fields_at (keys w) key))) (Some (RESULT_TTL cfg))) /\
  (forall field v, m2 !! field = Some v -> fields_at (keys w2) key !! field = Some v) /\
  (forall field, m2 !! field = None ->
     fields_at (keys w2) key !! field = fields_at (keys w1) key !! field) /\
  (forall k, k <> key -> keys w2 !! k = keys w !! k) /\
  exists w2',
    store cfg env job_id second (with_keys (keys w) w1) = (Ok tt, w2') /\
    (same_kind first second = true -> keys w2 = keys w2').
Proof.
  intros Httl Hfirst Hsecond key m1 m2.
  destruct (store_returned cfg env _ _ _ _ Httl Hfirst) as (_ & _ & Hk1 & Hkeys1 & _).
  destruct (store_returned cfg env _ _ _ _ Httl Hsecond) as (Hf1 & Hf2 & _ & Hkeys2 & _).
  fold key in Hk1, Hkeys1, Hkeys2.
  assert (Hkeys : keys w2 =
    <[key := Entry (RHash (m2 ∪ (m1 ∪ fields_at (keys w) key))) (Some (RESULT_TTL cfg))]>
      (keys w)).
  { rewrite Hkeys2, Hkeys1. apply record_written_twice. }
  split; [rewrite Hkeys; apply lookup_insert_eq |].
  split.
  { intros field v Hv. rewrite Hkeys2, fields_at_record_written. apply written_field, Hv. }
  split.
  { intros field Hv. rewrite Hkeys2, fields_at_record_written. apply kept_field, Hv. }
  split.
  { intros k Hne. rewrite Hkeys. apply lookup_insert_ne. congruence. }
  destruct (store_taken cfg env job_id second (with_keys (keys w) w1) Hf1 Hf2 Hk1 Httl)
    as (w2' & Halone).
  exists w2'. split; [exact Halone |].
  intros Hkind.
  destruct (store_returned cfg env _ _ _ _ Httl Halone) as (_ & _ & _ & Hkeys2' & _).
  simpl in Hkeys2'. fold key in Hkeys2'. rewrite Hkeys, Hkeys2'. unfold record_written.
  fold m2. f_equal. f_equal. f_equal.
  apply union_absorb. intros field. apply same_kind_fields, Hkind.
Qed.

(** C2 as the spec states it fails: a result written for job_abc123 and
    then an error for the same job leave a record that still carries the
    answer and the sources of the first write, which the error written
    alone does not have. *)
Lemma success_then_error_is_merged :
  ~ pure_overwrite default_config Example.quiet (JStr "job_abc123")
      (Success Overwrite.refund_result) (Failure "timed out") (Example.fresh ∅).
Proof.
  intros H.
  specialize (H Overwrite.after_first Overwrite.after_second Overwrite.second_alone).
  assert (Hmerged : fields_at (keys Overwrite.after_second) "rag:result:job_abc123"
                      !! "answer" = Some "30 days") by (vm_compute; reflexivity).
  rewrite H in Hmerged.
  - vm_compute in Hmerged. discriminate.
  - vm_compute. reflexivity.
  - vm_compute. reflexivity.
  - vm_compute. reflexivity.
Qed.

(** ** What a computation leaves unchanged *)

#[global] Instance unchanged_preorder {T} (f : world -> T) : PreOrder (unchanged f).
Proof.
  split.
  - intros w. reflexivity.
  - intros w1 w2 w3 H1 H2. unfold unchanged in *. congruence.
Qed.

#[global] Instance reading_inflight : MetricReading agent_inflight.
Proof. split; reflexivity. Qed.
#[global] Instance reading_processed : MetricReading agent_jobs_processed.
Proof. split; reflexivity. Qed.
#[global] Instance reading_processed_at status : MetricReading (fun w => processed w status).
Proof. split; reflexivity. Qed.

Section Unchanged.
Context {T} (f : world -> T) `{!MetricReading f} (cfg : config) (env : environment).

Lemma unchanged_note ev : respects (unchanged f) (note ev).
Proof. intros w. apply reading_emit. Qed.

Lemma unchanged_external_call : respects (unchanged f) (external_call env).
Proof.
  intros w. unfold unchanged. simpl. unfold deliver.
  destruct (signal_during env (tick w)); simpl.
  - change (f (with_shutdown true (emit (Printed (LogSignal z)) (with_tick (S (tick w)) w)))
            = f w).
    rewrite reading_shutdown, reading_emit. apply reading_tick.
  - apply reading_tick.
Qed.

Lemma unchanged_on_server {A} (exec : gmap string entry -> reply A) :
  respects (unchanged f) (on_server exec).
Proof.
  intros w. unfold unchanged, on_server. destruct (exec (keys w)); simpl.
  - apply reading_keys.
  - reflexivity.
Qed.

Lemma unchanged_utcnow : respects (unchanged f) (utcnow env).
Proof. intros w. reflexivity. Qed.

Lemma unchanged_send {A} c (exec : gmap string entry -> reply A) :
  respects (unchanged f) (send env c exec).
Proof.
  unfold send. respects_split.
  - apply unchanged_note.
  - apply unchanged_external_call.
  - apply unchanged_on_server.
Qed.

Lemma unchanged_brpop key timeout : respects (unchanged f) (brpop env key timeout).
Proof.
  unfold brpop. respects_split.
  - apply unchanged_note.
  - apply unchanged_external_call.
  - apply unchanged_on_server.
Qed.

Lemma unchanged_sleep seconds : respects (unchanged f) (sleep env seconds).
Proof.
  unfold sleep. respects_split.
  - apply unchanged_note.
  - apply unchanged_external_call.
Qed.

Lemma unchanged_answer question : respects (unchanged f) (answer env question).
Proof.
  unfold answer. respects_split.
  - apply unchanged_note.
  - apply unchanged_external_call.
Qed.

Lemma unchanged_process_job job_data : respects (unchanged f) (process_job cfg env job_data).
Proof.
  unfold process_job, py_get, py_slice, print. respects_split.
  all: first [apply unchanged_note | apply unchanged_answer | apply unchanged_utcnow].
Qed.

Lemma unchanged_store_result job_id result :
  respects (unchanged f) (store_result cfg env job_id result).
Proof.
  unfold store_result, hset, expire, print. respects_split.
  all: first [apply unchanged_note | apply unchanged_send].
Qed.

Lemma unchanged_store_error job_id error :
  respects (unchanged f) (store_error cfg env job_id error).
Proof.
  unfold store_error, hset, expire, print. respects_split.
  all: first [apply unchanged_note | apply unchanged_send | apply unchanged_utcnow].
Qed.

Lemma unchanged_on_loop_error e : respects (unchanged f) (on_loop_error env e).
Proof.
  unfold on_loop_error, print. respects_split.
  all: first [apply unchanged_note | apply unchanged_sleep].
Qed.

End Unchanged.

Section NeverHangs.
Context (cfg : config) (env : environment).

(** Sending a command always comes back. *)
Lemma send_comes_back {A} c (exec : gmap string entry -> reply A) w :
  fst (send env c exec w) <> Hang.
Proof.
  unfold send, on_server. repeat (rewrite bind_unfold; simpl).
  destruct (redis_fault env (tick w)); simpl; [discriminate |].
  destruct (exec _); discriminate.
Qed.

Lemma store_error_comes_back job_id error w :
  fst (store_error cfg env job_id error w) <> Hang.
Proof.
  unfold store_error, hset, expire. cbv zeta. repeat (rewrite bind_unfold; simpl).
  pose proof (send_comes_back (HSET (result_key cfg env job_id)
                (error_mapping cfg error (utcnow_isoformat env (tick w))))
                (redis_hset (result_key cfg env job_id)
                   (error_mapping cfg error (utcnow_isoformat env (tick w)))) w) as H1.
  destruct (send env _ _ w) as [[[] | e | ] w1]; simpl in *; try congruence.
  rewrite bind_unfold.
  pose proof (send_comes_back (EXPIRE (result_key cfg env job_id) (RESULT_TTL cfg))
                (redis_expire (result_key cfg env job_id) (RESULT_TTL cfg)) w1) as H2.
  destruct (send env _ _ w1) as [[b | e | ] w2]; simpl in *; congruence.
Qed.

Lemma on_failure_comes_back job_id e w :
  fst (on_failure cfg env job_id e w) <> Hang.
Proof.
  unfold on_failure. repeat (rewrite bind_unfold; simpl).
  pose proof (store_error_comes_back job_id (exn_msg e)
                (emit (Printed (LogJobFailed (format_value env job_id) (exn_msg e))) w)) as H.
  destruct (store_error cfg env job_id (exn_msg e) _) as [[[] | e' | ] w1]; simpl in *;
    congruence.
Qed.

Lemma on_failure_keeps_ok job_id e :
  respects (unchanged (fun w => processed w "ok")) (on_failure cfg env job_id e).
Proof.
  unfold on_failure, print, record_job_error. respects_split.
  - apply unchanged_note; typeclasses eauto.
  - apply unchanged_store_error; typeclasses eauto.
  - intros w. unfold unchanged, processed. simpl.
    apply metric_value_inc_ne. discriminate.
  - apply unchanged_note; typeclasses eauto.
Qed.

End NeverHangs.

Section RefusedWrite.
Context (cfg : config) (env : environment).

(** The [except] suite when the store refuses the error record too. *)
Lemma on_failure_refused job_id e w e2 :
  redis_fault env (tick w) = Some e2 ->
  on_failure cfg env job_id e w =
    (Raise e2,
     deliver env
       (emit (Sent (HSET (result_key cfg env job_id)
                      (error_mapping cfg (exn_msg e) (utcnow_isoformat env (tick w)))))
          (emit (Printed (LogJobFailed (format_value env job_id) (exn_msg e))) w))).
Proof.
  intros Hf. unfold on_failure, store_error, hset. cbv zeta.
  repeat (rewrite bind_unfold; simpl).
  rewrite (send_refused env _ _ (emit _ w) e2 Hf). reflexivity.
Qed.

Lemma on_loop_error_run e w :
  on_loop_error env e w =
    (Ok tt,
     deliver env
       (emit (Slept (if is_connection_error e then 5 else 1))
          (emit (Printed (if is_connection_error e
                          then LogConnectionError (exn_msg e)
                          else LogUnexpected (exn_msg e))) w))).
Proof. unfold on_loop_error. destruct (is_connection_error e); reflexivity. Qed.

End RefusedWrite.

(** C5, as amended.  When the pipeline has answered and the write of the
    result is refused, the job is not counted as a success and the pass
    still ends normally, so the loop goes on; but the refusal is handled
    like any failure of the job.  The pass prints the failure and sends an
    error record for the job, with the text of the store's exception.  If
    the store takes that record, it is stored and the job is counted under
    err.  If the store refuses it as well, the exception reaches the
    handlers of the loop, which print it and sleep, and no counter
    changes. *)
Theorem refused_result_write_takes_the_error_path
    cfg env w q payload w1 members result w2 e w3 :
  brpop env (QUEUE_NAME cfg) (BRPOP_TIMEOUT cfg) w = (Ok (Some (q, payload)), w1) ->
  json_loads env payload = Loaded (JObj members) ->
  let job_id := dict_get members "job_id" (JStr "unknown") in
  let key := result_key cfg env job_id in
  let mapping := error_mapping cfg (exn_msg e) (utcnow_isoformat env (tick w3)) in
  let failed := Printed (LogJobFailed (format_value env job_id) (exn_msg e)) in
  let closing :=
    [DurationObserved; InflightDec; Printed (LogJobCompleted (format_value env job_id))] in
  process_job cfg env (JObj members) (snd (increment_inflight w1)) = (Ok result, w2) ->
  store_result cfg env job_id result w2 = (Raise e, w3) ->
  exists w',
    iteration cfg env w = (Ok tt, w') /\
    processed w' "ok" = processed w "ok" /\
    (redis_fault env (tick w3) = None ->
     redis_fault env (S (tick w3)) = None ->
     holds_list (keys w3) key = false ->
     0 < RESULT_TTL cfg ->
     keys w' = record_written key mapping (RESULT_TTL cfg) (keys w3) /\
     processed w' "err" = processed w "err" + 1 /\
     steps (trace w') =
       steps (trace w3) ++
       [failed; Sent (HSET key mapping); Sent (EXPIRE key (RESULT_TTL cfg));
        Printed (LogErrorStored key); ProcessedInc "err"] ++ closing) /\
    (forall e2,
     redis_fault env (tick w3) = Some e2 ->
     keys w' = keys w3 /\
     processed w' "err" = processed w "err" /\
     steps (trace w') =
       steps (trace w3) ++
       [failed; Sent (HSET key mapping)] ++ closing ++
       [Printed (if is_connection_error e2
                 then LogConnectionError (exn_msg e2)
                 else LogUnexpected (exn_msg e2));
        Slept (if is_connection_error e2 then 5 else 1)]).
Proof.
  intros Hpop Hloads job_id key mapping failed closing Hjob Hstore.
  assert (Hp3 : agent_jobs_processed w3 = agent_jobs_processed w).
  { pose proof (unchanged_store_result agent_jobs_processed cfg env job_id result w2) as H3.
    pose proof (unchanged_process_job agent_jobs_processed cfg env (JObj members)
                  (snd (increment_inflight w1))) as H2.
    pose proof (unchanged_brpop agent_jobs_processed env (QUEUE_NAME cfg) (BRPOP_TIMEOUT cfg) w)
      as H1.
    unfold unchanged in *. rewrite Hstore in H3. rewrite Hjob in H2. rewrite Hpop in H1.
    simpl in *. congruence. }
  rewrite (iteration_job cfg env _ _ _ _ _ Hpop Hloads). cbv zeta. fold job_id.
  unfold try_except, attempt. rewrite (bind_ok _ _ _ _ _ Hjob).
  cbv beta. rewrite (bind_raise _ _ _ _ _ Hstore).
  pose proof (on_failure_comes_back cfg env job_id e w3) as Hback.
  pose proof (on_failure_keeps_ok cfg env job_id e w3) as Hok.
  unfold unchanged, processed in Hok.
  destruct (on_failure cfg env job_id e w3) as [[[] | e4 | ] w4] eqn:Hfail;
    simpl in Hback, Hok; [| | congruence].
  - (* the error record went through *)
    eexists. split; [reflexivity |].
    split.
    { unfold finish, processed. simpl. rewrite Hok, Hp3. reflexivity. }
    split.
    + intros Hf1 Hf2 Hk Httl.
      destruct (on_failure_recorded cfg env job_id e w3 Hf1 Hf2 Hk Httl)
        as (w4' & Hrun & Hkeys & _ & _ & Hp & _ & Hs).
      rewrite Hfail in Hrun. injection Hrun as <-.
      unfold finish, processed. simpl. rewrite Hp, metric_value_inc, Hp3.
      split; [exact Hkeys |]. split; [reflexivity |].
      rewrite !steps_app, Hs. simpl. rewrite <- !app_assoc. reflexivity.
    + intros e2 Hf. rewrite (on_failure_refused cfg env job_id e w3 e2 Hf) in Hfail.
      discriminate.
  - (* the error record was refused *)
    rewrite on_loop_error_run.
    eexists. split; [reflexivity |].
    split.
    { change (processed (deliver env (emit (Slept (if is_connection_error e4 then 5 else 1))
                (emit (Printed (if is_connection_error e4
                                then LogConnectionError (exn_msg e4)
                                else LogUnexpected (exn_msg e4)))
                   (finish env job_id w4)))) "ok" = processed w "ok").
      unfold processed. rewrite agent_jobs_processed_deliver. simpl.
      rewrite Hok, Hp3. reflexivity. }
    split.
    + intros Hf1 Hf2 Hk Httl.
      destruct (on_failure_recorded cfg env job_id e w3 Hf1 Hf2 Hk Httl) as (w4' & Hrun & _).
      rewrite Hfail in Hrun. discriminate.
    + intros e2 Hf. rewrite (on_failure_refused cfg env job_id e w3 e2 Hf) in Hfail.
      injection Hfail as <- <-.
      unfold processed. rewrite keys_deliver, agent_jobs_processed_deliver, steps_deliver.
      simpl. rewrite keys_deliver, agent_jobs_processed_deliver. simpl. rewrite Hp3.
      split; [reflexivity |]. split; [reflexivity |].
      rewrite !steps_app, steps_deliver. simpl. rewrite !steps_app. simpl.
      destruct (is_connection_error e2); simpl; rewrite <- !app_assoc; reflexivity.
Qed.

(** C5 as stated fails: when the connection drops during the HSET of the
    result of job_abc123 and is back for the next command, the pass goes
    on to send an error record for the job (an HSET and an EXPIRE more)
    and counts the job under err. *)
Lemma refused_write_is_recorded_as_error :
  ~ refused_write_only_logged default_config Refusal.env Refusal.start.
Proof.
  intros H.
  destruct (H "rag:jobs" (Example.dumps_dict Example.abc123) Refusal.popped
              [("job_id", JStr "job_abc123");
               ("question", JStr "What is the refund policy?");
               ("submitted_at", JStr "2024-01-01T00:00:00Z")]
              Refusal.answered (snd Refusal.processed_job)
              Refusal.connection_reset Refusal.refused (Ok tt) Refusal.finished)
    as [Hcommands Herr].
  - vm_compute. reflexivity.
  - vm_compute. reflexivity.
  - vm_compute. reflexivity.
  - vm_compute. reflexivity.
  - vm_compute. reflexivity.
  - vm_compute in Herr. discriminate.
Qed.

(** ** The queue is first in, first out *)

(** LPUSH puts the payload behind all that wait. *)
Lemma redis_lpush_pending key v ks :
  holds_hash ks key = false ->
  exists ks',
    redis_lpush key v ks = Done tt ks' /\
    pending ks' key = pending ks key ++ [v] /\
    holds_hash ks' key = false.
Proof.
  unfold holds_hash, redis_lpush, pending. intros H.
  destruct (ks !! key) as [[[items | fields] t] |]; try discriminate.
  - eexists. split; [reflexivity |]. rewrite lookup_insert_eq. auto.
  - eexists. split; [reflexivity |]. rewrite lookup_insert_eq. auto.
Qed.

(** RPOP takes the payload that has waited longest. *)
Lemma redis_rpop_pending key ks :
  holds_hash ks key = false ->
  match pending ks key with
  | [] => redis_rpop key ks = Done None ks
  | oldest :: rest =>
      exists ks',
        redis_rpop key ks = Done (Some oldest) ks' /\
        pending ks' key = rest /\
        holds_hash ks' key = false
  end.
Proof.
  unfold holds_hash, redis_rpop, pending. intros H.
  destruct (ks !! key) as [[[items | fields] t] |] eqn:Hk; try discriminate; [| reflexivity].
  destruct (rev items) as [| oldest rest] eqn:Hrev.
  - apply (f_equal (@rev string)) in Hrev. rewrite rev_involutive in Hrev. subst items.
    reflexivity.
  - apply (f_equal (@rev string)) in Hrev. rewrite rev_involutive in Hrev. subst items.
    simpl. rewrite last_snoc, removelast_last.
    destruct (rev rest) as [| x xs] eqn:Hrest.
    + apply (f_equal (@rev string)) in Hrest. rewrite rev_involutive in Hrest. subst rest.
      eexists. split; [reflexivity |]. rewrite lookup_delete_eq. auto.
    + eexists. split; [reflexivity |]. rewrite lookup_insert_eq. rewrite <- Hrest.
      rewrite rev_involutive. auto.
Qed.

Lemma push_from_pending key payload count : forall i ks,
  holds_hash ks key = false ->
  exists ks',
    push_from key payload i count ks = Done tt ks' /\
    pending ks' key = pending ks key ++ map payload (seq i count) /\
    holds_hash ks' key = false.
Proof.
  induction count as [| count IH]; intros i ks Hk; simpl.
  - exists ks. rewrite app_nil_r. auto.
  - destruct (redis_lpush_pending key (payload i) ks Hk) as (ks1 & -> & Hp1 & Hk1).
    destruct (IH (S i) ks1 Hk1) as (ks' & -> & Hp & Hk').
    exists ks'. split; [reflexivity |]. split; [| exact Hk'].
    rewrite Hp, Hp1, <- app_assoc. reflexivity.
Qed.

Section Fifo.
Context (env : environment) (key : string) (timeout : Z).
Hypothesis accepting : forall t, redis_fault env t = None.
Hypothesis bounded : 0 < timeout.

Lemma pops_pending : forall waiting w,
  pending (keys w) key = waiting ->
  holds_hash (keys w) key = false ->
  fst (pops env key timeout (S (length waiting)) w) =
    map (fun v => Some (key, v)) waiting ++ [None].
Proof.
  induction waiting as [| oldest rest IH]; intros w Hp Hk.
  - pose proof (redis_rpop_pending key (keys w) Hk) as Hpop. rewrite Hp in Hpop.
    simpl. unfold brpop. repeat (rewrite bind_unfold; simpl). rewrite accepting.
    destruct (Z.ltb_spec timeout 0); [lia |].
    rewrite bind_unfold. unfold on_server. rewrite keys_deliver. simpl. rewrite Hpop.
    destruct (Z.eqb_spec timeout 0); [lia |]. reflexivity.
  - pose proof (redis_rpop_pending key (keys w) Hk) as Hpop. rewrite Hp in Hpop.
    destruct Hpop as (ks' & Hpop & Hrest & Hk').
    change (pops env key timeout (S (length (oldest :: rest))) w) with
      (match brpop env key timeout w with
       | (Ok r, w') =>
           let (rs, w'') := pops env key timeout (S (length rest)) w' in (r :: rs, w'')
       | (_, w') => ([], w')
       end).
    rewrite (brpop_oldest env key timeout w oldest ks' (accepting _) (Z.lt_le_incl _ _ bounded) Hpop).
    specialize (IH (with_keys ks' (deliver env (emit (Sent (BRPOP key timeout)) w))) Hrest Hk').
    destruct (pops env key timeout (S (length rest)) _) as [rs w'']. simpl in *.
    rewrite IH. reflexivity.
Qed.

End Fifo.

(** C7.  The producer pushes at the left end of the list and the worker
    pops at the right end, so the queue is first in, first out: when
    [push_jobs] has pushed its payloads behind those already waiting, the
    pops of a worker that the server takes return the waiting payloads and
    then the pushed ones, each time the oldest one left, in the order of
    the pushes; the pop that finds the queue empty returns [None] after
    its timeout, and raises nothing. *)
Theorem queue_is_fifo cfg env payload count w :
  (forall t, redis_fault env t = None) ->
  0 < BRPOP_TIMEOUT cfg ->
  holds_hash (keys w) (QUEUE_NAME cfg) = false ->
  let expected := pending (keys w) (QUEUE_NAME cfg) ++ map payload (seq 0 count) in
  exists ks,
    push_jobs (QUEUE_NAME cfg) payload count (keys w) = Done tt ks /\
    pending ks (QUEUE_NAME cfg) = expected /\
    fst (pops env (QUEUE_NAME cfg) (BRPOP_TIMEOUT cfg) (S (length expected)) (with_keys ks w)) =
      map (fun v => Some (QUEUE_NAME cfg, v)) expected ++ [None].
Proof.
  intros Hacc Hto Hk expected.
  destruct (push_from_pending (QUEUE_NAME cfg) payload count 0 (keys w) Hk)
    as (ks & Hpush & Hp & Hk').
  exists ks. split; [exact Hpush |]. split; [exact Hp |].
  apply pops_pending; assumption.
Qed.

(** ** A pool of workers *)

(** Whatever a pop does, it either hands out the oldest waiting payload
    and removes it, or hands out nothing and leaves the server alone. *)
Lemma brpop_claims env key timeout w :
  holds_hash (keys w) key = false ->
  let r := fst (brpop env key timeout w) in
  let w' := snd (brpop env key timeout w) in
  holds_hash (keys w') key = false /\
  match r with
  | Ok (Some (_, v)) => pending (keys w) key = v :: pending (keys w') key
  | _ => pending (keys w') key = pending (keys w) key
  end.
Proof.
  intros Hk. unfold brpop. repeat (rewrite bind_unfold; simpl).
  destruct (redis_fault env (tick w)); simpl.
  { rewrite keys_deliver. auto. }
  destruct (timeout <? 0); simpl.
  { rewrite keys_deliver. auto. }
  rewrite bind_unfold. unfold on_server. rewrite keys_deliver. simpl.
  pose proof (redis_rpop_pending key (keys w) Hk) as Hpop.
  destruct (pending (keys w) key) as [| oldest rest] eqn:Hp.
  - rewrite Hpop. simpl. destruct (timeout =? 0); simpl; auto.
  - destruct Hpop as (ks' & -> & Hrest & Hk'). simpl. rewrite Hrest. auto.
Qed.

Section Pool.
Context (cfg : config) (envs : nat -> environment).

Lemma pool_step_conserved a before p :
  conserved cfg before p ->
  conserved cfg (before ++ match a with Push v => [v] | Pop _ => [] end) (pool_step cfg envs a p).
Proof.
  intros [Hk Hc]. destruct a as [v | i]; simpl.
  - destruct (redis_lpush_pending (QUEUE_NAME cfg) v (server p) Hk) as (ks & -> & Hp & Hk').
    split; [exact Hk' |]. simpl. rewrite Hp, Hc, <- app_assoc. reflexivity.
  - pose proof (brpop_claims (envs i) (QUEUE_NAME cfg) (BRPOP_TIMEOUT cfg)
                  (with_keys (server p) (local p i)) Hk) as [Hk' Hr].
    destruct (brpop (envs i) (QUEUE_NAME cfg) (BRPOP_TIMEOUT cfg)
                (with_keys (server p) (local p i))) as [r w'].
    simpl in *. split; [exact Hk' |]. rewrite app_nil_r, Hc.
    destruct r as [[[key v] |] | e |]; simpl.
    + rewrite Hr, map_app, <- app_assoc. reflexivity.
    + rewrite Hr. reflexivity.
    + rewrite Hr. reflexivity.
    + rewrite Hr. reflexivity.
Qed.

Lemma pool_run_conserved schedule : forall before p,
  conserved cfg before p ->
  conserved cfg (before ++ pushed schedule) (pool_run cfg envs schedule p).
Proof.
  induction schedule as [| a schedule IH]; intros before p Hc; simpl.
  - rewrite app_nil_r. exact Hc.
  - specialize (IH _ _ (pool_step_conserved a before p Hc)).
    rewrite <- app_assoc in IH. exact IH.
Qed.

End Pool.

(** C9.  Any number of workers popping the same queue, the server running
    their commands one at a time in any order, with producers pushing in
    between: the payloads handed out, in the order the pops returned them
    and whichever worker got them, are the first of the payloads pushed,
    each pushed payload taken once.  So when the pushed payloads differ
    from one another, no payload is returned by two pops. *)
Theorem no_payload_is_delivered_twice cfg envs schedule p :
  server p !! QUEUE_NAME cfg = None ->
  delivered p = [] ->
  let p' := pool_run cfg envs schedule p in
  pushed schedule = map snd (delivered p') ++ pending (server p') (QUEUE_NAME cfg) /\
  (NoDup (pushed schedule) -> NoDup (map snd (delivered p'))).
Proof.
  intros Hq Hd p'.
  assert (Hc : conserved cfg [] p).
  { unfold conserved, holds_hash, pending. rewrite Hq, Hd. auto. }
  destruct (pool_run_conserved cfg envs schedule [] p Hc) as [_ Hrun].
  simpl in Hrun. fold p' in Hrun.
  split; [exact Hrun |].
  intros Hnodup. rewrite Hrun in Hnodup. apply NoDup_app in Hnodup. tauto.
Qed.

(** ** The shutdown flag *)

Lemma signalled_empty env t : signalled env t t = false.
Proof. unfold signalled. rewrite Nat.sub_diag. reflexivity. Qed.

Lemma signalled_split env a b c :
  (a <= b)%nat -> (b <= c)%nat ->
  signalled env a c = signalled env a b || signalled env b c.
Proof.
  intros Hab Hbc. unfold signalled.
  replace (c - a)%nat with ((b - a) + (c - b))%nat by lia.
  rewrite seq_app, existsb_app. replace (a + (b - a))%nat with b by lia. reflexivity.
Qed.

Lemma signalled_one env t : signalled env t (S t) = arrives env t.
Proof.
  unfold signalled. replace (S t - t)%nat with 1%nat by lia. simpl. apply orb_false_r.
Qed.

Lemma signalled_true env lo hi :
  signalled env lo hi = true <->
  exists t, (lo <= t < hi)%nat /\ is_Some (signal_during env t).
Proof.
  unfold signalled. rewrite existsb_exists. split.
  - intros (t & Hin & Ht). apply in_seq in Hin. exists t. split; [lia |].
    unfold arrives in Ht. destruct (signal_during env t); [eauto | discriminate].
  - intros (t & Hr & [s Hs]). exists t. split; [apply in_seq; lia |].
    unfold arrives. rewrite Hs. reflexivity.
Qed.

#[global] Instance flagged_preorder env : PreOrder (flagged env).
Proof.
  split.
  - intros w. split; [lia |]. rewrite signalled_empty, orb_false_r. reflexivity.
  - intros w1 w2 w3 [Ht1 Hf1] [Ht2 Hf2]. split; [lia |].
    rewrite Hf2, Hf1, (signalled_split env _ _ _ Ht1 Ht2), orb_assoc. reflexivity.
Qed.

Section Flag.
Context (cfg : config) (env : environment).

Lemma flagged_same w w' :
  tick w' = tick w -> _shutdown w' = _shutdown w -> flagged env w w'.
Proof.
  intros Ht Hf. split; [lia |]. rewrite Ht, signalled_empty, orb_false_r. exact Hf.
Qed.

Lemma flagged_modify (f : world -> world) :
  (forall w, tick (f w) = tick w) ->
  (forall w, _shutdown (f w) = _shutdown w) ->
  respects (flagged env) (modify f).
Proof. intros Ht Hf w. simpl. apply flagged_same; [apply Ht | apply Hf]. Qed.

Lemma flagged_external_call : respects (flagged env) (external_call env).
Proof.
  intros w. simpl. split.
  - rewrite tick_deliver. lia.
  - rewrite tick_deliver, signalled_one. unfold deliver, arrives.
    destruct (signal_during env (tick w)); simpl.
    + symmetry. apply orb_true_r.
    + symmetry. apply orb_false_r.
Qed.

Lemma flagged_on_server {A} (exec : gmap string entry -> reply A) :
  respects (flagged env) (on_server exec).
Proof.
  intros w. unfold on_server. destruct (exec (keys w)); simpl; apply flagged_same; reflexivity.
Qed.

Lemma flagged_utcnow : respects (flagged env) (utcnow env).
Proof. intros w. simpl. reflexivity. Qed.

(** Closes [respects (flagged env) m] for a computation of the worker. *)
Ltac flagged_tac :=
  unfold iteration, iteration_body, on_loop_error, attempt, on_failure, cleanup,
    process_job, store_result, store_error, hset, expire, send, brpop, sleep, answer,
    py_get, py_slice, increment_inflight, decrement_inflight, record_job_success,
    record_job_error, observe_duration, print, note;
  respects_split;
  first [ apply flagged_modify; reflexivity
        | apply flagged_external_call
        | apply flagged_on_server
        | apply flagged_utcnow ].

Lemma flagged_iteration_body : respects (flagged env) (iteration_body cfg env).
Proof. flagged_tac. Qed.

Lemma flagged_on_loop_error e : respects (flagged env) (on_loop_error env e).
Proof. flagged_tac. Qed.

Lemma flagged_iteration : respects (flagged env) (iteration cfg env).
Proof. flagged_tac. Qed.

Lemma flagged_brpop key timeout : respects (flagged env) (brpop env key timeout).
Proof. flagged_tac. Qed.

(** Every pop is a call. *)
Lemma brpop_tick key timeout w :
  (tick w < tick (snd (brpop env key timeout w)))%nat.
Proof.
  unfold brpop. repeat (rewrite bind_unfold; simpl).
  destruct (redis_fault env (tick w)); simpl; [rewrite tick_deliver; simpl; lia |].
  destruct (timeout <? 0); simpl; [rewrite tick_deliver; simpl; lia |].
  rewrite bind_unfold. unfold on_server. rewrite keys_deliver. simpl.
  destruct (redis_rpop key (keys w)) as [[v |] ks |]; simpl.
  - rewrite tick_deliver. simpl. lia.
  - destruct (timeout =? 0); simpl; rewrite tick_deliver; simpl; lia.
  - rewrite tick_deliver. simpl. lia.
Qed.

(** So every pass makes at least one call. *)
Lemma iteration_tick w : (tick w < tick (snd (iteration cfg env w)))%nat.
Proof.
  pose proof (brpop_tick (QUEUE_NAME cfg) (BRPOP_TIMEOUT cfg) w) as Hpop.
  unfold iteration, try_except, iteration_body. rewrite bind_unfold.
  destruct (brpop env (QUEUE_NAME cfg) (BRPOP_TIMEOUT cfg) w) as [[r | e | ] w1];
    simpl in Hpop.
  - match goal with |- context [match ?k w1 with _ => _ end] =>
      assert (Hrest : respects (flagged env) k) by (destruct r as [[? ?] |]; flagged_tac);
      destruct (Hrest w1) as [Ht _]; destruct (k w1) as [[[] | e | ] w2]
    end; simpl in *.
    + lia.
    + destruct (flagged_on_loop_error e w2) as [Ht2 _]. lia.
    + lia.
  - destruct (flagged_on_loop_error e w1) as [Ht2 _]. lia.
  - simpl. lia.
Qed.

(** No exception leaves a pass. *)
Lemma iteration_catches w e : fst (iteration cfg env w) <> Raise e.
Proof.
  unfold iteration, try_except.
  destruct (iteration_body cfg env w) as [[[] | e' | ] w1]; simpl; try discriminate.
  rewrite on_loop_error_run. discriminate.
Qed.

End Flag.

(** ** A pass does not look at signals *)

Lemma alike_refl w : alike w w.
Proof. repeat split. Qed.

Section Sim.

Lemma sim_ret {A} (a : A) : sim (mret a) (mret a).
Proof. intros w w' H. simpl. auto. Qed.

Lemma sim_raise {A} (e : exn) : sim (@raise A e) (raise e).
Proof. intros w w' H. simpl. auto. Qed.

Lemma sim_hang {A} : sim (@hang A) hang.
Proof. intros w w' H. simpl. auto. Qed.

Lemma sim_bind {A B} (m m' : M A) (f f' : A -> M B) :
  sim m m' -> (forall a, sim (f a) (f' a)) -> sim (m ≫= f) (m' ≫= f').
Proof.
  intros Hm Hf w w' H. rewrite !bind_unfold.
  destruct (Hm w w' H) as [Hr Hw].
  destruct (m w) as [[a | e | ] w1], (m' w') as [[a' | e' | ] w1'];
    simpl in Hr, Hw; try discriminate; simpl.
  - injection Hr as Ha. subst a'. apply Hf. exact Hw.
  - injection Hr as He. subst e'. auto.
  - auto.
Qed.

Lemma sim_try_except {A} (body body' : M A) (handler handler' : exn -> M A) :
  sim body body' -> (forall e, sim (handler e) (handler' e)) ->
  sim (try_except body handler) (try_except body' handler').
Proof.
  intros Hb Hh w w' H. unfold try_except.
  destruct (Hb w w' H) as [Hr Hw].
  destruct (body w) as [[a | e | ] w1], (body' w') as [[a' | e' | ] w1'];
    simpl in Hr, Hw; try discriminate; simpl.
  - auto.
  - injection Hr as He. subst e'. apply Hh. exact Hw.
  - auto.
Qed.

Lemma sim_try_finally {A} (body body' : M A) (fin fin' : M unit) :
  sim body body' -> sim fin fin' ->
  sim (try_finally body fin) (try_finally body' fin').
Proof.
  intros Hb Hf w w' H. unfold try_finally.
  destruct (Hb w w' H) as [Hr Hw].
  destruct (body w) as [[a | e | ] w1], (body' w') as [[a' | e' | ] w1'];
    simpl in Hr, Hw; try discriminate; simpl; [| | auto].
  all: destruct (Hf w1 w1' Hw) as [Hr2 Hw2].
  all: destruct (fin w1) as [[[] | e2 | ] w2], (fin' w1') as [[[] | e2' | ] w2'];
    simpl in Hr2, Hw2; try discriminate; simpl; auto.
  all: injection Hr2 as He2; subst e2'; auto.
Qed.

Lemma sim_note ev : sim (note ev) (note ev).
Proof.
  intros w w' (Hk & Ht & Hg & Hp & Hd & Hs). simpl. split; [reflexivity |].
  repeat split; simpl; try assumption. rewrite !steps_app, Hs. reflexivity.
Qed.

(** A change to the metrics that reads nothing but the metrics. *)
Lemma sim_modify (f : world -> world) :
  (forall w w', alike w w' -> alike (f w) (f w')) -> sim (modify f) (modify f).
Proof. intros Hf w w' H. simpl. auto. Qed.

Lemma sim_on_server {A} (exec : gmap string entry -> reply A) :
  sim (on_server exec) (on_server exec).
Proof.
  intros w w' H. unfold on_server. destruct H as (Hk & H). rewrite <- Hk.
  destruct (exec (keys w)); simpl; split; try reflexivity.
  - destruct H as (Ht & Hg & Hp & Hd & Hs). repeat split; assumption.
  - split; assumption.
Qed.

Context (env : environment) (signals : nat -> option Z).

Lemma sim_external_call :
  sim (external_call env) (external_call (with_signals signals env)).
Proof.
  intros w w' (Hk & Ht & Hg & Hp & Hd & Hs). simpl. split; [congruence |].
  unfold alike.
  rewrite !keys_deliver, !tick_deliver, !agent_inflight_deliver,
    !agent_jobs_processed_deliver, !agent_job_duration_deliver, !steps_deliver.
  repeat split; congruence.
Qed.

Lemma sim_utcnow : sim (utcnow env) (utcnow (with_signals signals env)).
Proof.
  intros w w' H. simpl. split; [| exact H].
  destruct H as (_ & Ht & _). rewrite Ht. reflexivity.
Qed.

End Sim.

(** Closes [sim m m'] for a computation [m] of the worker and the same
    computation [m'] under other signals. *)
Ltac sim_tac :=
  unfold iteration, iteration_body, on_loop_error, attempt, on_failure, cleanup,
    process_job, store_result, store_error, hset, expire, send, brpop, sleep, answer,
    py_get, py_slice, increment_inflight, decrement_inflight, record_job_success,
    record_job_error, observe_duration, print, result_key, result_mapping,
    error_mapping, format_value, with_signals;
  cbn [json_loads json_dumps py_repr redis_fault rag_answer utcnow_isoformat];
  repeat match goal with
  | |- sim (mret _) (mret _) => apply sim_ret
  | |- sim (raise _) (raise _) => apply sim_raise
  | |- sim hang hang => apply sim_hang
  | |- sim (note _) (note _) => apply sim_note
  | |- sim (modify _) (modify _) =>
      apply sim_modify;
      let H := fresh in
      intros ? ? H; unfold alike in *; simpl; intuition congruence
  | |- sim (on_server _) (on_server _) => apply sim_on_server
  | |- sim (external_call _) (external_call _) => apply sim_external_call
  | |- sim (utcnow _) (utcnow _) => apply sim_utcnow
  | |- sim (_ ≫= _) (_ ≫= _) => apply sim_bind; [| intros ?; cbv beta]
  | |- sim (try_except _ _) (try_except _ _) =>
      apply sim_try_except; [| intros ?; cbv beta]
  | |- sim (try_finally _ _) (try_finally _ _) => apply sim_try_finally
  | |- sim (match ?x with _ => _ end) (match ?x with _ => _ end) => destruct x
  end.

Lemma sim_iteration cfg env signals :
  sim (iteration cfg env) (iteration cfg (with_signals signals env)).
Proof. sim_tac. Qed.

Section Loop.
Context (cfg : config) (env : environment).

Lemma worker_loop_unfold fuel w :
  worker_loop cfg env (S fuel) w =
    if _shutdown w then (ShutdownComplete, emit (Printed LogShutdownComplete) w)
    else match iteration cfg env w with
         | (Ok _, w') => worker_loop cfg env fuel w'
         | (Raise e, w') => (Crashed e, w')
         | (Hang, w') => (Stalled, w')
         end.
Proof. reflexivity. Qed.

Lemma worker_loop_exits fuel w :
  _shutdown w = true ->
  worker_loop cfg env fuel w = (ShutdownComplete, emit (Printed LogShutdownComplete) w).
Proof. intros H. destruct fuel; simpl; rewrite H; reflexivity. Qed.

Lemma worker_loop_never_crashes fuel : forall w e,
  fst (worker_loop cfg env fuel w) <> Crashed e.
Proof.
  induction fuel as [| fuel IH]; intros w e; simpl.
  - destruct (_shutdown w); discriminate.
  - destruct (_shutdown w); [discriminate |].
    pose proof (iteration_catches cfg env w) as Hcatch.
    destruct (iteration cfg env w) as [[[] | e' | ] w1]; simpl in *.
    + apply IH.
    + exfalso. apply (Hcatch e'). reflexivity.
    + discriminate.
Qed.

Lemma worker_loop_shutdown fuel : forall w w',
  worker_loop cfg env fuel w = (ShutdownComplete, w') ->
  (tick w <= tick w')%nat /\
  (_shutdown w = true \/ signalled env (tick w) (tick w') = true).
Proof.
  induction fuel as [| fuel IH]; intros w w'; simpl.
  - destruct (_shutdown w); [| discriminate]. intros [= <-]. simpl. auto.
  - destruct (_shutdown w) eqn:Hs; [intros [= <-]; simpl; auto |].
    destruct (flagged_iteration cfg env w) as [Ht Hf].
    destruct (iteration cfg env w) as [[[] | e' | ] w1]; simpl in *; try discriminate.
    intros Hloop. destruct (IH _ _ Hloop) as [Ht' Hor].
    split; [lia |]. right.
    rewrite (signalled_split env _ _ _ Ht Ht').
    destruct Hor as [Hflag | Hsig].
    + rewrite Hf, Hs in Hflag. simpl in Hflag. rewrite Hflag. reflexivity.
    + rewrite Hsig. apply orb_true_r.
Qed.

(** Once a signal has arrived, the loop ends within the passes it takes
    to reach the call during which it arrived, and one more check. *)
Lemma worker_loop_ends t : forall n w,
  arrives env t = true ->
  (tick w <= t < tick w + n)%nat ->
  fst (worker_loop cfg env n w) <> StillRunning.
Proof.
  induction n as [| n IH]; intros w Hsig Ht; [lia |].
  rewrite worker_loop_unfold.
  destruct (_shutdown w) eqn:Hs; [discriminate |].
  pose proof (iteration_tick cfg env w) as Htick.
  destruct (flagged_iteration cfg env w) as [_ Hf].
  destruct (iteration cfg env w) as [[[] | e' | ] w1]; simpl in *; try discriminate.
  destruct (Nat.le_gt_cases (tick w1) t) as [Hle | Hgt].
  - apply IH; [exact Hsig | lia].
  - rewrite worker_loop_exits; [discriminate |].
    rewrite Hf, Hs. simpl. unfold signalled. apply existsb_exists.
    exists t. split; [apply in_seq; lia | exact Hsig].
Qed.

End Loop.

(** C8.  The loop ends only on the shutdown flag, which only a signal
    raises.  (1) No exception leaves the loop: a run never ends crashed.
    (2) A run that ends does so with the flag up, and the flag is up
    because it was so from the start or because a termination signal
    arrived during one of the calls made.  (3) The flag is read between
    passes only: a pass raises nothing to the loop, and its outcome, the
    server, the metrics and the steps it takes are the same whatever
    signals arrive while it runs, so a job in flight is finished, written
    and counted as if no signal had come.  (4) When the flag is down the
    loop runs one whole pass and then goes back to the test, where a
    raised flag ends it.  (5) An exception that the body of a pass
    raises, a connection failure of the transport or any other, is
    printed by the handler of its class, followed by a sleep of 5 or 1
    seconds, and the pass returns.  (6) After a signal the loop does end:
    some number of passes is enough. *)
Theorem loop_exits_only_on_shutdown cfg env :
  (forall fuel w e, fst (worker_loop cfg env fuel w) <> Crashed e) /\
  (forall fuel w w',
     worker_loop cfg env fuel w = (ShutdownComplete, w') ->
     _shutdown w = true \/
     exists t, (tick w <= t < tick w')%nat /\ is_Some (signal_during env t)) /\
  (forall w signals,
     (forall e, fst (iteration cfg env w) <> Raise e) /\
     fst (iteration cfg (with_signals signals env) w) = fst (iteration cfg env w) /\
     alike (snd (iteration cfg (with_signals signals env) w)) (snd (iteration cfg env w))) /\
  (forall fuel w,
     _shutdown w = false ->
     worker_loop cfg env (S fuel) w =
       match iteration cfg env w with
       | (Ok _, w') =>
           if _shutdown w' then (ShutdownComplete, emit (Printed LogShutdownComplete) w')
           else worker_loop cfg env fuel w'
       | (Raise e, w') => (Crashed e, w')
       | (Hang, w') => (Stalled, w')
       end) /\
  (forall w e w1,
     iteration_body cfg env w = (Raise e, w1) ->
     exists w',
       iteration cfg env w = (Ok tt, w') /\
       keys w' = keys w1 /\
       same_metrics w1 w' /\
       steps (trace w') =
         steps (trace w1) ++
         [Printed (if is_connection_error e
                   then LogConnectionError (exn_msg e)
                   else LogUnexpected (exn_msg e));
          Slept (if is_connection_error e then 5 else 1)]) /\
  (forall w t,
     (tick w <= t)%nat ->
     is_Some (signal_during env t) ->
     exists fuel, fst (worker_loop cfg env fuel w) <> StillRunning).
Proof.
  split; [apply worker_loop_never_crashes |].
  split.
  { intros fuel w w' Hloop.
    destruct (worker_loop_shutdown cfg env fuel w w' Hloop) as [_ [Hflag | Hsig]].
    - left. exact Hflag.
    - right. apply signalled_true, Hsig. }
  split.
  { intros w signals. split; [apply iteration_catches |].
    destruct (sim_iteration cfg env signals w w (alike_refl w)) as [Hr Hw].
    split; [symmetry; exact Hr |].
    destruct Hw as (? & ? & ? & ? & ? & ?). repeat split; congruence. }
  split.
  { intros fuel w Hs. rewrite worker_loop_unfold, Hs.
    destruct (iteration cfg env w) as [[[] | e | ] w']; try reflexivity.
    destruct (_shutdown w') eqn:Hs'; [| reflexivity].
    apply worker_loop_exits, Hs'. }
  split.
  { intros w e w1 Hbody. unfold iteration, try_except. rewrite Hbody, on_loop_error_run.
    eexists. split; [reflexivity |].
    rewrite keys_deliver, steps_deliver. simpl. rewrite !steps_app. simpl.
    split; [reflexivity |]. split.
    - apply (same_metrics_deliver env (emit _ (emit _ w1))).
    - destruct (is_connection_error e); simpl; rewrite <- app_assoc; reflexivity. }
  intros w t Ht [s Hs].
  exists (S (t - tick w)). apply (worker_loop_ends cfg env t).
  - unfold arrives. rewrite Hs. reflexivity.
  - lia.
Qed.

(** * The theorems at work on concrete runs *)

Lemma inflight_returns_to_baseline_witness :
  let w := Runs.one_job in
  let w' := snd (iteration default_config Example.quiet w) in
  inflight w' = inflight w /\
  exists before during after,
    trace w' = trace w ++ before ++ InflightInc :: during ++ InflightDec :: after /\
    forallb idle before = true /\
    forallb not_inflight during = true /\
    forallb idle after = true.
Proof.
  intros w w'.
  apply (inflight_returns_to_baseline default_config Example.quiet w "rag:jobs"
           (Example.dumps_dict Example.abc123) (Runs.popped Example.quiet w)
           [("job_id", JStr "job_abc123");
            ("question", JStr "What is the refund policy?");
            ("submitted_at", JStr "2024-01-01T00:00:00Z")] (Ok tt) w').
  - vm_compute. reflexivity.
  - vm_compute. reflexivity.
  - vm_compute. reflexivity.
  - discriminate.
Defined.

(** The gauge after a pass on each of the three paths of a job: the
    pipeline answers, the question is empty, the pipeline fails. *)
Lemma inflight_is_back_on_each_path :
  inflight (snd (iteration default_config Example.quiet Runs.one_job)) = 0 /\
  inflight (snd (iteration default_config Example.quiet Runs.empty_question_job)) = 0 /\
  inflight (snd (iteration default_config
                   (Example.env_of Example.never Example.failing_pipeline Example.never)
                   Runs.one_job)) = 0.
Proof. vm_compute. repeat split. Qed.

Lemma malformed_payload_is_discarded_witness :
  let w := Runs.malformed_first in
  exists w',
    iteration default_config Example.quiet w = (Ok tt, w') /\
    processed w' "err" = processed w "err" + 1 /\
    processed w' "ok" = processed w "ok" /\
    inflight w' = inflight w /\
    steps (trace w') =
      steps (trace w) ++ [Sent (BRPOP "rag:jobs" 5);
                          Printed (LogInvalidJSON "Expecting value: line 1 column 1 (char 0)");
                          ProcessedInc "err"] /\
    redis_rpop "rag:jobs" (keys w) = Done (Some "not-json") (keys w') /\
    (forall k, k <> "rag:jobs" -> keys w' !! k = keys w !! k) /\
    (_shutdown w = false ->
     forall fuel, worker_loop default_config Example.quiet (S fuel) w
                  = worker_loop default_config Example.quiet fuel w').
Proof.
  intros w.
  apply (malformed_payload_is_discarded default_config Example.quiet w "rag:jobs"
           "not-json" (Runs.popped Example.quiet w)
           "Expecting value: line 1 column 1 (char 0)").
  - vm_compute. reflexivity.
  - vm_compute. reflexivity.
Defined.

(** After the malformed payload, the valid job behind it is processed:
    two passes leave its completed record and one count under each
    label. *)
Lemma valid_job_after_malformed_payload :
  let w := snd (worker_loop default_config Example.quiet 2 Runs.malformed_first) in
  fields_at (keys w) "rag:result:job_abc123" !! "status" = Some "completed" /\
  fields_at (keys w) "rag:result:job_abc123" !! "answer" = Some "30 days" /\
  processed w "err" = 1 /\
  processed w "ok" = 1 /\
  inflight w = 0.
Proof. vm_compute. repeat split. Qed.

Lemma missing_question_is_a_job_error_witness :
  let w := Runs.empty_question_job in
  exists w' fields,
    iteration default_config Example.quiet w = (Ok tt, w') /\
    keys w' !! "rag:result:job_e" = Some (Entry (RHash fields) (Some 3600)) /\
    fields !! "status" = Some "error" /\
    fields !! "error" = Some "Job missing 'question' field" /\
    processed w' "err" = processed w "err" + 1 /\
    processed w' "ok" = processed w "ok".
Proof.
  intros w.
  destruct (missing_question_is_a_job_error default_config Example.quiet w "rag:jobs"
              (Example.dumps_dict Example.empty_question) (Runs.popped Example.quiet w)
              [("job_id", JStr "job_e"); ("question", JStr "")])
    as (w' & fields & Hrun & Hkey & Hstatus & Herror & _ & _ & Herr & Hok & _).
  - vm_compute. reflexivity.
  - vm_compute. reflexivity.
  - right. reflexivity.
  - vm_compute. reflexivity.
  - vm_compute. reflexivity.
  - vm_compute. reflexivity.
  - reflexivity.
  - exists w', fields. auto 10.
Defined.

(** A job with no question at all takes the same path. *)
Lemma job_without_question_is_a_job_error :
  let w := snd (iteration default_config Example.quiet
                  (Example.fresh (Example.queue_of [Example.dumps_dict Example.no_question]))) in
  fields_at (keys w) "rag:result:job_m" !! "status" = Some "error" /\
  fields_at (keys w) "rag:result:job_m" !! "error" = Some "Job missing 'question' field" /\
  processed w "err" = 1 /\
  processed w "ok" = 0.
Proof. vm_compute. repeat split. Qed.

Lemma completed_job_is_recorded_witness :
  let w := Runs.one_job in
  exists w' fields,
    iteration default_config Example.quiet w = (Ok tt, w') /\
    keys w' !! "rag:result:job_abc123" = Some (Entry (RHash fields) (Some 3600)) /\
    fields !! "status" = Some "completed" /\
    fields !! "answer" = Some "30 days" /\
    fields !! "sources" = Some "[]" /\
    fields !! "worker_id" = Some "worker-local" /\
    processed w' "ok" = processed w "ok" + 1.
Proof.
  intros w.
  destruct (completed_job_is_recorded default_config Example.quiet w "rag:jobs"
              (Example.dumps_dict Example.abc123) (Runs.popped Example.quiet w)
              [("job_id", JStr "job_abc123");
               ("question", JStr "What is the refund policy?");
               ("submitted_at", JStr "2024-01-01T00:00:00Z")]
              "job_abc123" "What is the refund policy?" "30 days" (JArr []))
    as (w' & fields & Hrun & Hkey & Hstatus & Hanswer & Hsources & Hworker & _ & _ & Hok & _).
  - vm_compute. reflexivity.
  - vm_compute. reflexivity.
  - reflexivity.
  - reflexivity.
  - discriminate.
  - reflexivity.
  - reflexivity.
  - reflexivity.
  - vm_compute. reflexivity.
  - reflexivity.
  - exists w', fields. auto 10.
Defined.

Lemma jobs_without_id_share_one_key_witness :
  let w := Runs.job_without_id in
  exists w' mapping,
    iteration default_config Example.quiet w = (Ok tt, w') /\
    (exists l,
       steps (trace w') = steps (trace w) ++ l /\
       commands l = [BRPOP "rag:jobs" 5; HSET "rag:result:unknown" mapping;
                     EXPIRE "rag:result:unknown" 3600]) /\
    (forall k, k <> "rag:result:unknown" -> keys w' !! k = keys (Runs.popped Example.quiet w) !! k).
Proof.
  intros w.
  destruct (jobs_without_id_share_one_key default_config Example.quiet w "rag:jobs"
              (Example.dumps_dict Example.no_id) (Runs.popped Example.quiet w)
              [("question", JStr "What is the refund policy?")]
              "What is the refund policy?")
    as (w' & mapping & Hrun & _ & Hsent & _ & _ & _ & Hother).
  - vm_compute. reflexivity.
  - vm_compute. reflexivity.
  - reflexivity.
  - reflexivity.
  - discriminate.
  - discriminate.
  - reflexivity.
  - reflexivity.
  - vm_compute. reflexivity.
  - reflexivity.
  - exists w', mapping. auto 10.
Defined.

(** Two jobs without an id, one after the other: the record under
    unknown ends with the answer to the second. *)
Lemma second_unknown_job_overwrites_first :
  let answers t (question : json) :=
    match question with
    | JStr "How long does shipping take?" => Answered "5 days" (JArr [])
    | _ => Answered "30 days" (JArr [])
    end in
  let env := Example.env_of Example.never answers Example.never in
  let w0 := Example.fresh (Example.queue_of [Example.dumps_dict Example.no_id_2;
                                             Example.dumps_dict Example.no_id]) in
  let w1 := snd (iteration default_config env w0) in
  let w2 := snd (iteration default_config env w1) in
  fields_at (keys w1) "rag:result:unknown" !! "answer" = Some "30 days" /\
  fields_at (keys w2) "rag:result:unknown" !! "answer" = Some "5 days" /\
  size (keys w2) = 1%nat.
Proof. vm_compute. repeat split. Qed.

Lemma second_write_overwrites_named_fields_witness :
  let key := "rag:result:job_abc123" in
  fields_at (keys Overwrite.after_second) key !! "status" = Some "error" /\
  fields_at (keys Overwrite.after_second) key !! "answer"
    = fields_at (keys Overwrite.after_first) key !! "answer".
Proof.
  intros key.
  destruct (second_write_overwrites_named_fields default_config Example.quiet
              (JStr "job_abc123") (Success Overwrite.refund_result) (Failure "timed out")
              (Example.fresh ∅) Overwrite.after_first Overwrite.after_second)
    as (_ & Hnamed & Hkept & _).
  - reflexivity.
  - vm_compute. reflexivity.
  - vm_compute. reflexivity.
  - split.
    + apply Hnamed. reflexivity.
    + apply Hkept. reflexivity.
Defined.

Lemma refused_result_write_takes_the_error_path_witness :
  exists w',
    iteration default_config Refusal.env Refusal.start = (Ok tt, w') /\
    processed w' "ok" = processed Refusal.start "ok" /\
    processed w' "err" = processed Refusal.start "err" + 1.
Proof.
  destruct (refused_result_write_takes_the_error_path default_config Refusal.env
              Refusal.start "rag:jobs" (Example.dumps_dict Example.abc123) Refusal.popped
              [("job_id", JStr "job_abc123");
               ("question", JStr "What is the refund policy?");
               ("submitted_at", JStr "2024-01-01T00:00:00Z")]
              Refusal.answered (snd Refusal.processed_job)
              Refusal.connection_reset Refusal.refused)
    as (w' & Hrun & Hok & Htaken & _).
  - vm_compute. reflexivity.
  - vm_compute. reflexivity.
  - vm_compute. reflexivity.
  - vm_compute. reflexivity.
  - destruct Htaken as (_ & Herr & _).
    + vm_compute. reflexivity.
    + vm_compute. reflexivity.
    + vm_compute. reflexivity.
    + reflexivity.
    + exists w'. auto 10.
Defined.

Lemma queue_is_fifo_witness :
  let payload i := match i with O => "a" | 1%nat => "b" | _ => "c" end in
  exists ks,
    push_jobs "rag:jobs" payload 3 ∅ = Done tt ks /\
    pending ks "rag:jobs" = ["a"; "b"; "c"] /\
    fst (pops Example.quiet "rag:jobs" 5 4 (with_keys ks (Example.fresh ∅))) =
      [Some ("rag:jobs", "a"); Some ("rag:jobs", "b"); Some ("rag:jobs", "c"); None].
Proof.
  intros payload.
  destruct (queue_is_fifo default_config Example.quiet payload 3 (Example.fresh ∅))
    as (ks & Hpush & Hpending & Hpops).
  - intros t. reflexivity.
  - reflexivity.
  - reflexivity.
  - exists ks. split; [exact Hpush |]. split; [exact Hpending | exact Hpops].
Defined.

Lemma no_payload_is_delivered_twice_witness :
  let p' := pool_run default_config (fun _ => Example.quiet) Runs.busy_schedule
              Runs.two_workers in
  pushed Runs.busy_schedule
    = map snd (delivered p') ++ pending (server p') "rag:jobs" /\
  (NoDup (pushed Runs.busy_schedule) -> NoDup (map snd (delivered p'))).
Proof.
  apply (no_payload_is_delivered_twice default_config (fun _ => Example.quiet)
           Runs.busy_schedule Runs.two_workers).
  - reflexivity.
  - reflexivity.
Defined.

(** The run of the two workers: the payloads go out in the order pushed,
    each to one worker. *)
Lemma two_workers_share_three_jobs :
  delivered (pool_run default_config (fun _ => Example.quiet) Runs.busy_schedule
               Runs.two_workers)
  = [(0%nat, "first"); (1%nat, "second"); (0%nat, "third")].
Proof. vm_compute. reflexivity. Qed.

Lemma loop_exits_only_on_shutdown_witness :
  let w := Runs.one_job in
  exists w',
    worker_loop default_config Runs.interrupted 3 w = (ShutdownComplete, w') /\
    (exists t, (tick w <= t < tick w')%nat /\ is_Some (signal_during Runs.interrupted t)) /\
    fields_at (keys w') "rag:result:job_abc123" !! "status" = Some "completed" /\
    processed w' "ok" = 1 /\
    inflight w' = 0.
Proof.
  intros w.
  exists (snd (worker_loop default_config Runs.interrupted 3 w)).
  split; [vm_compute; reflexivity |].
  split.
  - destruct (proj1 (proj2 (loop_exits_only_on_shutdown default_config Runs.interrupted))
                3%nat w (snd (worker_loop default_config Runs.interrupted 3 w)))
      as [Hup | Hsignal].
    + vm_compute. reflexivity.
    + discriminate Hup.
    + exact Hsignal.
  - vm_compute. repeat split.
Defined.
